(** * datalist: typed value matching and comparison

    A shallow embedding of [internal/datalist/values.go]: the three
    functions [floatApproxEquals], [valueMatches] and [compareValues],
    together with the parts of the Go runtime and of the Terraform plugin
    SDK they rely on (interface values and type assertions, [float64]
    arithmetic, the [strings] package, schema descriptors). *)

From Stdlib Require Import ZArith List String Ascii Bool Lia.
From Stdlib Require Import Permutation Sorted.
From Stdlib Require Import Floats.SpecFloat.
Import ListNotations.

Set Warnings "-register-all".

Local Open Scope Z_scope.

(* ================================================================= *)
(** ** Panics

    A Go function either returns or panics.  The two functions of this file
    panic in two ways: a failed type assertion [x.(T)] (a runtime error), and
    the explicit [panic("Illegal state: ...")] of [compareValues]. *)

Inductive Panic : Type :=
| InterfaceConversion
| Explicit (msg : string).

Inductive result (A : Type) : Type :=
| Ok (a : A)
| Panicked (p : Panic).

Arguments Ok {A} a.
Arguments Panicked {A} p.

Definition bind {A B : Type} (r : result A) (k : A -> result B) : result B :=
  match r with
  | Ok a => k a
  | Panicked p => Panicked p
  end.

Notation "x <- e ;; k" := (bind e (fun x => k))
  (at level 61, e at next level, right associativity).

Definition returns {A : Type} (r : result A) : Prop := exists a, r = Ok a.

(* ================================================================= *)
(** ** float64

    IEEE 754 binary64 values and the operations the source applies to them:
    subtraction (round to nearest even), [math.Abs], and the comparison
    operators.  A NaN carries no payload here; none of the operations used
    by the source looks at one. *)

Definition float64 : Type := spec_float.

Module F64.

Definition prec : Z := 53.
Definition emax : Z := 1024.

Definition valid (x : float64) : bool := valid_binary prec emax x.

Definition NaN : float64 := S754_nan.
Definition Inf (neg : bool) : float64 := S754_infinity neg.

(** The literal [0.] *)
Definition zero : float64 := S754_zero false.
Definition negzero : float64 := S754_zero true.

(** The literal [0.000001], converted to the nearest binary64 value,
    [0x1.0c6f7a0b5ed8dp-20]. *)
Definition epsilon : float64 := S754_finite false 4722366482869645 (-72).

Definition one : float64 := S754_finite false 4503599627370496 (-52).

(** [1e-9] as a binary64 value, [0x1.12e0be826d695p-30]. *)
Definition nano : float64 := S754_finite false 4835703278458517 (-82).

(** The smallest positive (subnormal) binary64 value, [0x1p-1074]. *)
Definition tiny : float64 := S754_finite false 1 (-1074).

Definition sub (x y : float64) : float64 := SFsub prec emax x y.
Definition abs (x : float64) : float64 := SFabs x.

(** [x < y], [x > y], [x == y] and [x != y]; all are false on a NaN
    operand except [!=], which is true. *)
Definition ltb (x y : float64) : bool := SFltb x y.
Definition gtb (x y : float64) : bool :=
  match SFcompare x y with
  | Some Gt => true
  | _ => false
  end.
Definition eqb (x y : float64) : bool := SFeqb x y.
Definition neqb (x y : float64) : bool := negb (SFeqb x y).

Definition is_nan (x : float64) : bool :=
  match x with
  | S754_nan => true
  | _ => false
  end.

(** Both operands are the same infinity. *)
Definition same_inf (x y : float64) : bool :=
  match x, y with
  | S754_infinity sx, S754_infinity sy => Bool.eqb sx sy
  | _, _ => false
  end.

End F64.

(* ================================================================= *)
(** ** The [strings] and [regexp] packages *)

Module strings.

(** [strings.HasPrefix(s, prefix)] *)
Fixpoint HasPrefix (s prefix : string) {struct prefix} : bool :=
  match prefix, s with
  | EmptyString, _ => true
  | String c prefix', String d s' => Ascii.eqb c d && HasPrefix s' prefix'
  | String _ _, EmptyString => false
  end.

(** [strings.Contains(s, substr)]: [substr] occurs in [s] at some byte
    offset. *)
Fixpoint Contains (s substr : string) : bool :=
  HasPrefix s substr
  || match s with
     | EmptyString => false
     | String _ s' => Contains s' substr
     end.

(** [strings.Compare(a, b)]: lexicographic comparison of the bytes,
    [-1], [0] or [+1]. *)
Fixpoint Compare (a b : string) : Z :=
  match a, b with
  | EmptyString, EmptyString => 0
  | EmptyString, String _ _ => -1
  | String _ _, EmptyString => 1
  | String c a', String d b' =>
      match N.compare (N_of_ascii c) (N_of_ascii d) with
      | Lt => -1
      | Gt => 1
      | Eq => Compare a' b'
      end
  end.

(** The ASCII range of Unicode simple case folding: [A-Z] and [a-z] fold
    together, every other byte is itself.  On strings of ASCII bytes this is
    what [strings.EqualFold] computes. *)
Definition foldASCII (c : ascii) : N :=
  let n := N_of_ascii c in
  if (65 <=? n)%N && (n <=? 90)%N then (n + 32)%N else n.

Fixpoint EqualFoldASCII (s t : string) : bool :=
  match s, t with
  | EmptyString, EmptyString => true
  | String c s', String d t' =>
      (foldASCII c =? foldASCII d)%N && EqualFoldASCII s' t'
  | _, _ => false
  end.

End strings.

(** A compiled [*regexp.Regexp] is represented by the predicate its
    [MatchString] method computes. *)
Record Regexp : Type := mkRegexp { MatchString : string -> bool }.

(* ================================================================= *)
(** ** Schema descriptors ([helper/schema]) *)

(** [schema.ValueType] is an [int] with the constants below. *)
Definition ValueType : Type := Z.

Definition TypeInvalid : ValueType := 0.
Definition TypeBool : ValueType := 1.
Definition TypeInt : ValueType := 2.
Definition TypeFloat : ValueType := 3.
Definition TypeString : ValueType := 4.
Definition TypeList : ValueType := 5.
Definition TypeMap : ValueType := 6.
Definition TypeSet : ValueType := 7.
Definition typeObject : ValueType := 8.

(** The two fields of [schema.Schema] the source reads: [Type], and [Elem],
    an [interface{}] that holds a [*schema.Schema], a [*schema.Resource] or
    nothing.  Pointers to schemas, sets and compiled patterns are non-nil
    throughout. *)
Inductive Schema : Type :=
| mkSchema (type : ValueType) (elem : SchemaElem)
with SchemaElem : Type :=
| ElemNil
| ElemSchema (s : Schema)
| ElemResource.

Definition SType (s : Schema) : ValueType :=
  match s with mkSchema t _ => t end.

Definition Elem (s : Schema) : SchemaElem :=
  match s with mkSchema _ e => e end.

(** A schema of a scalar type. *)
Definition scalar (t : ValueType) : Schema := mkSchema t ElemNil.

(* ================================================================= *)
(** ** Interface values

    The dynamic values passed as [interface{}].  A Go [int] is kept as an
    integer: the source only compares ints, it never does arithmetic on them.
    A [*schema.Set] is represented by the slice its [List()] method returns.
    [VNil] stands for a nil interface and for every dynamic type the source
    never asserts. *)

Inductive Value : Type :=
| VNil
| VString (s : string)
| VBool (b : bool)
| VInt (i : Z)
| VFloat (f : float64)
| VList (l : list Value)
| VSet (l : list Value)
| VRegexp (re : Regexp).

(** Type assertions [v.(T)]. *)
Definition assertString (v : Value) : result string :=
  match v with VString s => Ok s | _ => Panicked InterfaceConversion end.
Definition assertBool (v : Value) : result bool :=
  match v with VBool b => Ok b | _ => Panicked InterfaceConversion end.
Definition assertInt (v : Value) : result Z :=
  match v with VInt i => Ok i | _ => Panicked InterfaceConversion end.
Definition assertFloat64 (v : Value) : result float64 :=
  match v with VFloat f => Ok f | _ => Panicked InterfaceConversion end.
Definition assertSlice (v : Value) : result (list Value) :=
  match v with VList l => Ok l | _ => Panicked InterfaceConversion end.
Definition assertSet (v : Value) : result (list Value) :=
  match v with VSet l => Ok l | _ => Panicked InterfaceConversion end.
Definition assertRegexp (v : Value) : result Regexp :=
  match v with VRegexp re => Ok re | _ => Panicked InterfaceConversion end.

(** The dynamic type a schema of a scalar type expects of its values. *)
Definition hasType (t : ValueType) (v : Value) : bool :=
  match v with
  | VString _ => t =? TypeString
  | VBool _ => t =? TypeBool
  | VInt _ => t =? TypeInt
  | VFloat _ => t =? TypeFloat
  | _ => false
  end.

(** The payloads the calling layer hands over for a schema: a value of the
    schema's type, collections holding values of the element schema.  A type
    tag the matcher does not handle puts no constraint on the value. *)
Fixpoint wellTyped (s : Schema) (v : Value) {struct s} : bool :=
  match s with
  | mkSchema type elem =>
      if type =? TypeList then
        match v, elem with
        | VList l, ElemSchema es => forallb (wellTyped es) l
        | _, _ => false
        end
      else if type =? TypeSet then
        match v, elem with
        | VSet l, ElemSchema es => forallb (wellTyped es) l
        | _, _ => false
        end
      else if (type =? TypeString) || (type =? TypeBool)
              || (type =? TypeInt) || (type =? TypeFloat) then hasType type v
      else true
  end.

(** The filter value that goes with a schema and a mode: a compiled pattern
    for a string matched in mode ["re"], otherwise a scalar of the type at
    the leaf of the schema. *)
Fixpoint filterTyped (s : Schema) (f : Value) (matchBy : string) {struct s} : bool :=
  match s with
  | mkSchema type elem =>
      if (type =? TypeList) || (type =? TypeSet) then
        match elem with
        | ElemSchema es => filterTyped es f matchBy
        | _ => false
        end
      else if type =? TypeString then
        if (matchBy =? "re")%string then
          match f with VRegexp _ => true | _ => false end
        else hasType type f
      else if (type =? TypeBool) || (type =? TypeInt) || (type =? TypeFloat) then
        hasType type f
      else true
  end.

(* ================================================================= *)
(** ** values.go *)

(** [floatApproxEquals]: [math.Abs(a-b) < 0.000001] *)
Definition floatApproxEquals (a b : float64) : bool :=
  F64.ltb (F64.abs (F64.sub a b)) F64.epsilon.

(** The loop of the [TypeList] and [TypeSet] cases:
    [for _, listValue := range listValues { result = result || f(listValue) }].
    [f] is called on every element, whatever [result] already is. *)
Fixpoint rangeOr (f : Value -> result bool) (listValues : list Value)
    (res : bool) : result bool :=
  match listValues with
  | [] => Ok res
  | listValue :: rest =>
      valueDoesMatch <- f listValue ;;
      rangeOr f rest (res || valueDoesMatch)
  end.

Definition relationalModes : list string :=
  ["less_than"; "less_than_or_equal"; "greater_than"; "greater_than_or_equal"]%string.

Section Matcher.

(** [strings.EqualFold]: equality under Unicode simple case folding. *)
Variable EqualFold : string -> string -> bool.

Fixpoint valueMatches (s : Schema) (value filterValue : Value)
    (matchBy : string) {struct s} : result bool :=
  match s with
  | mkSchema type elem =>
    if type =? TypeString then
      if (matchBy =? "substring")%string then
        v <- assertString value ;;
        f <- assertString filterValue ;;
        Ok (strings.Contains v f)
      else if (matchBy =? "re")%string then
        re <- assertRegexp filterValue ;;
        v <- assertString value ;;
        Ok (MatchString re v)
      else
        f <- assertString filterValue ;;
        v <- assertString value ;;
        Ok (EqualFold f v)
    else if type =? TypeBool then
      f <- assertBool filterValue ;;
      v <- assertBool value ;;
      Ok (Bool.eqb f v)
    else if type =? TypeInt then
      val <- assertInt value ;;
      filter <- assertInt filterValue ;;
      if (matchBy =? "less_than")%string then Ok (val <? filter)
      else if (matchBy =? "less_than_or_equal")%string then Ok (val <=? filter)
      else if (matchBy =? "greater_than")%string then Ok (val >? filter)
      else if (matchBy =? "greater_than_or_equal")%string then Ok (val >=? filter)
      else Ok (val =? filter)
    else if type =? TypeFloat then
      val <- assertFloat64 value ;;
      filter <- assertFloat64 filterValue ;;
      if (matchBy =? "less_than")%string then
        Ok (F64.neqb val F64.zero && F64.ltb val filter)
      else if (matchBy =? "less_than_or_equal")%string then
        Ok (F64.neqb val F64.zero
            && (F64.ltb val filter || floatApproxEquals filter val))
      else if (matchBy =? "greater_than")%string then
        Ok (F64.neqb val F64.zero && F64.gtb val filter)
      else if (matchBy =? "greater_than_or_equal")%string then
        Ok (F64.neqb val F64.zero
            && (F64.gtb val filter || floatApproxEquals filter val))
      else Ok (floatApproxEquals filter val)
    else if type =? TypeList then
      listValues <- assertSlice value ;;
      rangeOr (fun listValue =>
                 match elem with
                 | ElemSchema es => valueMatches es listValue filterValue matchBy
                 | _ => Panicked InterfaceConversion
                 end) listValues false
    else if type =? TypeSet then
      listValues <- assertSet value ;;
      rangeOr (fun listValue =>
                 match elem with
                 | ElemSchema es => valueMatches es listValue filterValue matchBy
                 | _ => Panicked InterfaceConversion
                 end) listValues false
    else Ok false
  end.

End Matcher.

Definition unsupportedSort : string :=
  "Illegal state: Unsupported value type for sort".

Definition compareValues (s : Schema) (value1 value2 : Value) : result Z :=
  let type := SType s in
  if type =? TypeString then
    s1 <- assertString value1 ;;
    s2 <- assertString value2 ;;
    Ok (strings.Compare s1 s2)
  else if type =? TypeBool then
    boolValue1 <- assertBool value1 ;;
    boolValue2 <- assertBool value2 ;;
    if Bool.eqb boolValue1 boolValue2 then Ok 0
    else if negb boolValue1 then Ok (-1)
    else Ok 1
  else if type =? TypeInt then
    intValue1 <- assertInt value1 ;;
    intValue2 <- assertInt value2 ;;
    if intValue1 <? intValue2 then Ok (-1)
    else if intValue1 >? intValue2 then Ok 1
    else Ok 0
  else if type =? TypeFloat then
    floatValue1 <- assertFloat64 value1 ;;
    floatValue2 <- assertFloat64 value2 ;;
    if floatApproxEquals floatValue1 floatValue2 then Ok 0
    else if F64.ltb floatValue1 floatValue2 then Ok (-1)
    else if F64.gtb floatValue1 floatValue2 then Ok 1
    else Ok 0
  else Panicked (Explicit unsupportedSort).

(* ================================================================= *)
(** ** Sorting with [compareValues] *)

(** Modelled from the spec: the sorting layer that consumes the comparator
    is not among the sources, and the spec only says that a sequence is
    sorted "by compare", without naming an algorithm.  Two comparison sorts
    are modelled: insertion sort, which Go's [sort] package runs on slices
    of at most 12 elements, with
    [less(a, b) := compareValues(s, a, b) < 0], and a three-way quicksort on
    the sign of the comparator. *)
Definition less (s : Schema) (a b : Value) : result bool :=
  c <- compareValues s a b ;;
  Ok (c <? 0).

Section InsertionSort.

Variable A : Type.
Variable lessFn : A -> A -> result bool.

(** The inner loop, [for j := i; j > a && less(j, j-1); j-- { swap(j, j-1) }]:
    [x] is [data[i]] and [before] is the sorted prefix read from [data[i-1]]
    down to [data[a]]; the result is the new prefix, read the same way. *)
Fixpoint insertLeft (x : A) (before : list A) : result (list A) :=
  match before with
  | [] => Ok [x]
  | y :: before' =>
      lt <- lessFn x y ;;
      if lt then
        moved <- insertLeft x before' ;;
        Ok (y :: moved)
      else Ok (x :: before)
  end.

(** The outer loop over [data[i]], [i = a+1 .. b-1]. *)
Fixpoint insertionLoop (before rest : list A) : result (list A) :=
  match rest with
  | [] => Ok (rev before)
  | x :: rest' =>
      before' <- insertLeft x before ;;
      insertionLoop before' rest'
  end.

Definition insertionSort (data : list A) : result (list A) :=
  insertionLoop [] data.

End InsertionSort.

Arguments insertLeft {A} lessFn x before.
Arguments insertionLoop {A} lessFn before rest.
Arguments insertionSort {A} lessFn data.

Section QuickSort.

Variable A : Type.
Variable cmp : A -> A -> result Z.

(** Modelled from the spec: the elements of [l] that compare below, equal to
    and above the pivot [p], each group in the order of [l]. *)
Fixpoint partition3 (p : A) (l : list A) : result (list A * list A * list A) :=
  match l with
  | [] => Ok ([], [], [])
  | x :: l' =>
      c <- cmp x p ;;
      parts <- partition3 p l' ;;
      let '(lt, eq, gt) := parts in
      if c <? 0 then Ok (x :: lt, eq, gt)
      else if c =? 0 then Ok (lt, x :: eq, gt)
      else Ok (lt, eq, x :: gt)
  end.

(** Modelled from the spec: three-way quicksort with the first element as
    pivot; the elements equal to the pivot are not compared with each
    other.  [fuel] bounds the depth of the recursion. *)
Fixpoint quickSort3 (fuel : nat) (l : list A) : result (list A) :=
  match l with
  | [] => Ok []
  | p :: rest =>
      match fuel with
      | O => Panicked (Explicit "out of fuel")
      | S fuel' =>
          parts <- partition3 p rest ;;
          let '(lt, eq, gt) := parts in
          below <- quickSort3 fuel' lt ;;
          above <- quickSort3 fuel' gt ;;
          Ok (below ++ p :: eq ++ above)
      end
  end.

Definition quickSort (data : list A) : result (list A) :=
  quickSort3 (List.length data) data.

End QuickSort.

Arguments partition3 {A} cmp p l.
Arguments quickSort3 {A} cmp fuel l.
Arguments quickSort {A} cmp data.

(** Every adjacent pair of [l] is related by [R]. *)
Definition adjacentPairs {A : Type} (R : A -> A -> Prop) (l : list A) : Prop :=
  forall l1 a b l2, l = l1 ++ a :: b :: l2 -> R a b.

(** [R] with its arguments swapped. *)
Definition flipped {A : Type} (R : A -> A -> Prop) : A -> A -> Prop :=
  fun y x => R x y.

(** [compareValues(s, a, b) <= 0] *)
Definition inOrder (s : Schema) (a b : Value) : Prop :=
  exists c, compareValues s a b = Ok c /\ c <= 0.

(** What [sort.IsSorted] checks: no element is [less] than its
    predecessor. *)
Definition noInversion (s : Schema) (a b : Value) : Prop :=
  exists c, compareValues s b a = Ok c /\ 0 <= c.

(** The branch of [compareValues] on floats that is taken when none of the
    three tests succeeds. *)
Definition floatFallback (a b : float64) : bool :=
  negb (floatApproxEquals a b) && negb (F64.ltb a b) && negb (F64.gtb a b).

(** The value of a collection of type [t] (a slice for [TypeList], a set
    for [TypeSet]) with the elements [l]. *)
Definition collection (t : ValueType) (l : list Value) : Value :=
  if t =? TypeSet then VSet l else VList l.

(** The dynamic type each handled type tag asserts of the value: the scalar
    of the tag, a slice for [TypeList], a set for [TypeSet]. *)
Definition hasShape (t : ValueType) (v : Value) : bool :=
  match v with
  | VList _ => t =? TypeList
  | VSet _ => t =? TypeSet
  | _ => hasType t v
  end.

(** [Elem] holds a [*schema.Schema]. *)
Definition isElemSchema (e : SchemaElem) : bool :=
  match e with
  | ElemSchema _ => true
  | _ => false
  end.

(** Half of the tolerance, [0x1.0c6f7a0b5ed8dp-21]. *)
Definition halfEpsilon : float64 := S754_finite false 4722366482869645 (-73).

Definition is_inf (x : float64) : bool :=
  match x with
  | S754_infinity _ => true
  | _ => false
  end.

(* ================================================================= *)
(** ** config.go *)

Module equinix.

Local Open Scope string_scope.

(** The double quote and the newline characters. *)
Definition dq : string := String "034"%char EmptyString.
Definition nl : string := String "010"%char EmptyString.

(** [strings.Join(elems, sep)] *)
Fixpoint strings_Join (elems : list string) (sep : string) : string :=
  match elems with
  | [] => ""
  | [a] => a
  | a :: rest => a ++ sep ++ strings_Join rest sep
  end.

Definition uaEnvVar : string := "TF_APPEND_USER_AGENT".

(** The raw string literal [emptyCredentialsError], line by line. *)
Definition emptyCredentialsError : string :=
  strings_Join
  ["the provider needs to be configured with the proper credentials before it";
   "can be used.";
   "";
   "One of pair " ++ dq ++ "client_id" ++ dq ++ " - " ++ dq ++ "client_secret" ++ dq ++ " or " ++ dq ++ "token" ++ dq ++ " must be set in the provider";
   "configuration to interact with Equinix Fabric and Network Edge services, and";
   "" ++ dq ++ "auth_token" ++ dq ++ " to interact with Equinix Metal. These can also be configured using";
   "environment variables.";
   "";
   "Please note that while the authentication arguments are individually optional to allow";
   "interaction with the different services independently, trying to provision the resources";
   "of a service without the required credentials will return an API error referring to";
   "'Invalid authentication token' or 'error when acquiring token'.";
   "";
   "More information on the provider configuration can be found here:";
   "https://registry.terraform.io/providers/equinix/equinix/latest/docs"]%string nl.

(** [time.Duration], a number of nanoseconds. *)
Definition Duration : Type := Z.
Definition Second : Duration := 1000000000%Z.

(** The dynamic types of [error] values that [MetalRetryPolicy] tells
    apart: a [*url.Error] with its fields, an [x509.UnknownAuthorityError],
    and every other error, of which only the message matters. *)
Inductive error : Type :=
| errorString (msg : string)
| UnknownAuthorityError (msg : string)
| URLError (Op URL : string) (Err : error).

Section ErrorMethod.

(** [strconv.Quote], which the verb [%q] applies to a string. *)
Variable Quote : string -> string.

(** The [Error()] method; for a [*url.Error] it is
    [fmt.Sprintf("%s %q: %s", e.Op, e.URL, e.Err)]. *)
Fixpoint Error (e : error) : string :=
  match e with
  | errorString msg => msg
  | UnknownAuthorityError msg => msg
  | URLError Op URL Err => Op ++ " " ++ Quote URL ++ ": " ++ Error Err
  end.

End ErrorMethod.

(** *** The pattern [stopped after \d+ redirects\z] *)

Definition isDigit (c : ascii) : bool :=
  let n := N_of_ascii c in ((48 <=? n) && (n <=? 57))%N.

Fixpoint allDigits (s : string) : bool :=
  match s with
  | EmptyString => true
  | String c s' => isDigit c && allDigits s'
  end.

(** The rest of [s] after its leading digits. *)
Fixpoint skipDigits (s : string) : string :=
  match s with
  | String c s' => if isDigit c then skipDigits s' else s
  | EmptyString => s
  end.

(** The rest of [s] after [prefix], when [s] starts with it. *)
Fixpoint dropPrefix (prefix s : string) {struct prefix} : option string :=
  match prefix with
  | EmptyString => Some s
  | String c prefix' =>
      match s with
      | String d s' => if Ascii.eqb c d then dropPrefix prefix' s' else None
      | EmptyString => None
      end
  end.

(** The pattern matches the whole of [s]: the literal, one digit or more,
    the second literal, and the end of the text. *)
Definition redirectsHere (s : string) : bool :=
  match dropPrefix "stopped after " s with
  | Some (String c r) => isDigit c && (skipDigits r =? " redirects")
  | _ => false
  end.

(** [MatchString]: the pattern matches from some offset of [s] on. *)
Fixpoint redirectsMatch (s : string) : bool :=
  redirectsHere s
  || match s with
     | EmptyString => false
     | String _ s' => redirectsMatch s'
     end.

Definition redirectsErrorRe : Regexp := mkRegexp redirectsMatch.

(** The text of a match: the literal, a non-empty run of digits, the second
    literal. *)
Definition redirectsText (ds : string) : string :=
  "stopped after " ++ ds ++ " redirects".

(** The bytes of [s] all differ from [c]. *)
Fixpoint without (c : ascii) (s : string) : bool :=
  match s with
  | EmptyString => true
  | String d s' => negb (Ascii.eqb c d) && without c s'
  end.

(** *** Config *)

(** Where the HTTP client built by [Load] takes its token from: a static
    token, or the OAuth2 configuration of the credentials. *)
Inductive TokenSource : Type :=
| StaticTokenSource (AccessToken : string)
| OAuthConfig (ClientID ClientSecret BaseURL : string).

(** The [*http.Client] built by [Load]. *)
Record HTTPClient : Type := mkHTTPClient {
  Source : TokenSource;
  Timeout : Duration
}.

(** The [ne.Client] built by [Load], as what [Load] gives it: the arguments
    of [ne.NewClient], the page size when [SetPageSize] is called, and the
    [User-agent] header of [SetHeaders]. *)
Record RestClient : Type := mkRestClient {
  clientBaseURL : string;
  clientHTTP : HTTPClient;
  clientPageSize : option Z;
  clientUserAgent : string
}.

(** The fields of [Config] that [Load] and the other methods read or
    write.  The client fields [ecx], [metal] and [fabricClient] are never
    touched by this file and are left out. *)
Record Config : Type := mkConfig {
  BaseURL : string;
  AuthToken : string;
  ClientID : string;
  ClientSecret : string;
  MaxRetries : Z;
  MaxRetryWait : Duration;
  RequestTimeout : Duration;
  PageSize : Z;
  Token : string;
  ne : option RestClient;
  ecxUserAgent : string;
  neUserAgent : string;
  metalUserAgent : string;
  terraformVersion : string;
  FabricAuthToken : string
}.

Definition setFabricAuthToken (tok : string) (c : Config) : Config :=
  mkConfig (BaseURL c) (AuthToken c) (ClientID c) (ClientSecret c)
    (MaxRetries c) (MaxRetryWait c) (RequestTimeout c) (PageSize c) (Token c)
    (ne c) (ecxUserAgent c) (neUserAgent c) (metalUserAgent c)
    (terraformVersion c) tok.

Definition setClients (ecxUA neUA : string) (neClient : RestClient)
    (c : Config) : Config :=
  mkConfig (BaseURL c) (AuthToken c) (ClientID c) (ClientSecret c)
    (MaxRetries c) (MaxRetryWait c) (RequestTimeout c) (PageSize c) (Token c)
    (Some neClient) ecxUA neUA (metalUserAgent c)
    (terraformVersion c) (FabricAuthToken c).

(** [requestTimeout] *)
Definition requestTimeout (c : Config) : Duration :=
  if (RequestTimeout c =? 0)%Z then (5 * Second)%Z else RequestTimeout c.

(** What [d.GetProviderMeta(&m)] gives: an error, or the module name. *)
Inductive ProviderMeta : Type :=
| MetaError
| MetaOk (ModuleName : string).

(** [generateModuleUserAgentString] *)
Definition generateModuleUserAgentString (d : ProviderMeta)
    (baseUserAgent : string) : string :=
  match d with
  | MetaError => baseUserAgent
  | MetaOk ModuleName =>
      if negb (ModuleName =? "") then
        strings_Join [ModuleName; baseUserAgent] " "
      else baseUserAgent
  end.

Section Environment.

(** [os.Getenv], [strings.TrimSpace], the value of
    [meta.SDKVersionString()] and the constant [version.ProviderVersion]. *)
Variable Getenv : string -> string.
Variable TrimSpace : string -> string.
Variable SDKVersionString : string.
Variable ProviderVersion : string.

(** The user agent before [TF_APPEND_USER_AGENT] is looked at. *)
Definition baseTerraformUserAgent (version : string) : string :=
  "HashiCorp Terraform/" ++ version
  ++ " (+https://www.terraform.io) Terraform Plugin SDK/" ++ SDKVersionString.

(** [terraformUserAgent] (the debug log line is left out). *)
Definition terraformUserAgent (version : string) : string :=
  let ua := baseTerraformUserAgent version in
  let add := Getenv uaEnvVar in
  if negb (add =? "") then
    let add := TrimSpace add in
    if (0 <? String.length add)%nat then ua ++ " " ++ add else ua
  else ua.

(** [(c *Config) fullUserAgent] *)
Definition fullUserAgent (c : Config) (suffix : string) : string :=
  let tfUserAgent := terraformUserAgent (terraformVersion c) in
  TrimSpace (tfUserAgent ++ " terraform-provider-equinix/" ++ ProviderVersion
             ++ " " ++ suffix).

(** [authConfig.TokenSource(ctx, authClient).Token()] for the given client
    id, client secret and base URL: the access token of the token returned,
    if one is, and the error, if any. *)
Variable requestToken : string -> string -> string -> option string * option error.

(** [(c *Config) Load]: the error returned and the configuration as [Load]
    leaves it. *)
Definition Load (c : Config) : option error * Config :=
  if BaseURL c =? "" then
    (Some (errorString "'baseURL' cannot be empty"), c)
  else if (Token c =? "")
          && ((ClientID c =? "") || (ClientSecret c =? ""))
          && (AuthToken c =? "") then
    (Some (errorString emptyCredentialsError), c)
  else
    let authenticated : option error * (TokenSource * Config) :=
      if negb (Token c =? "") then (None, (StaticTokenSource (Token c), c))
      else
        let source := OAuthConfig (ClientID c) (ClientSecret c) (BaseURL c) in
        if negb (ClientID c =? "") && negb (ClientSecret c =? "") then
          let (tke, err) := requestToken (ClientID c) (ClientSecret c) (BaseURL c) in
          match err with
          | Some e => (Some e, (source, c))
          | None =>
              match tke with
              | Some accessToken => (None, (source, setFabricAuthToken accessToken c))
              | None => (None, (source, c))
              end
          end
        else (None, (source, c)) in
    match authenticated with
    | (Some e, _) => (Some e, c)
    | (None, (source, c1)) =>
        let c2 :=
          if FabricAuthToken c1 =? "" then setFabricAuthToken (Token c1) c1
          else c1 in
        let authClient := mkHTTPClient source (requestTimeout c2) in
        let pageSize := if (PageSize c2 >? 0)%Z then Some (PageSize c2) else None in
        let ecxUA := fullUserAgent c2 "equinix/ecx-go" in
        let neUA := fullUserAgent c2 "equinix/ecx-go" in
        let neClient := mkRestClient (BaseURL c2) authClient pageSize neUA in
        (None, setClients ecxUA neUA neClient c2)
    end.

End Environment.

(** [MetalRetryPolicy]: [ctxErr] is [ctx.Err()], and [resp] the response,
    which the policy does not read. *)
Definition MetalRetryPolicy (Quote : string -> string) {Response : Type}
    (ctxErr : option error) (resp : option Response) (err : option error)
    : bool * option error :=
  match ctxErr with
  | Some e => (false, Some e)
  | None =>
      match err with
      | Some (URLError Op URL Err as v) =>
          if MatchString redirectsErrorRe (Error Quote v) then (false, None)
          else
            match Err with
            | UnknownAuthorityError _ => (false, None)
            | _ => (true, None)
            end
      | Some _ => (true, None)
      | None => (false, None)
      end
  end.

End equinix.

(* ================================================================= *)
(** * Properties *)

(** ** float64 arithmetic *)

Module F64Facts.

(** The literal [0.000001] is the binary64 value nearest to [10^-6]: with
    [epsilon = m * 2^-72], the distance [|m * 2^-72 - 10^-6|] is at most
    half a unit in the last place, [2^-73]. *)
Lemma epsilon_nearest :
  F64.epsilon = S754_finite false 4722366482869645 (-72)
  /\ F64.valid F64.epsilon = true
  /\ 2 * Z.abs (4722366482869645 * 10 ^ 6 - 2 ^ 72) <= 10 ^ 6.
Proof. repeat split. vm_compute. discriminate. Qed.

(** Rounding does not depend on the sign, which is only copied to the
    result. *)
Lemma abs_binary_round_aux (s : bool) (m e : Z) (l : location) :
  SFabs (binary_round_aux F64.prec F64.emax s m e l)
  = SFabs (binary_round_aux F64.prec F64.emax false m e l).
Proof.
  unfold binary_round_aux.
  destruct (shr_fexp F64.prec F64.emax m e l) as [mrs' e'].
  destruct (shr_fexp F64.prec F64.emax _ e' loc_Exact) as [mrs'' e''].
  destruct (shr_m mrs''); try reflexivity.
  destruct (e'' <=? F64.emax - F64.prec); reflexivity.
Qed.

Lemma abs_binary_round (s : bool) (m : positive) (e : Z) :
  SFabs (binary_round F64.prec F64.emax s m e)
  = SFabs (binary_round F64.prec F64.emax false m e).
Proof.
  unfold binary_round.
  destruct (shl_align m e _) as [mz ez].
  apply abs_binary_round_aux.
Qed.

Lemma abs_binary_normalize_opp (m e : Z) :
  SFabs (binary_normalize F64.prec F64.emax (- m) e false)
  = SFabs (binary_normalize F64.prec F64.emax m e false).
Proof.
  destruct m as [|p|p]; unfold binary_normalize; cbn [Z.opp];
    [reflexivity | | symmetry]; apply abs_binary_round.
Qed.

(** [|a - b|] and [|b - a|] are the same float. *)
Lemma abs_sub_comm (a b : float64) :
  F64.abs (F64.sub a b) = F64.abs (F64.sub b a).
Proof.
  destruct a as [sa|sa| |sa ma ea], b as [sb|sb| |sb mb eb];
    try reflexivity; try (destruct sa, sb; reflexivity).
  unfold F64.abs, F64.sub, SFsub.
  rewrite (Z.min_comm eb ea).
  set (ez := Z.min ea eb).
  set (x := cond_Zopp sa _). set (y := cond_Zopp sb _).
  replace (y - x) with (- (x - y)) by lia.
  symmetry. apply abs_binary_normalize_opp.
Qed.

Lemma compare_swap (a b : float64) :
  SFcompare b a = option_map CompOpp (SFcompare a b).
Proof.
  destruct a as [sa|sa| |sa ma ea], b as [sb|sb| |sb mb eb];
    try reflexivity; try (destruct sa, sb; reflexivity);
    try (destruct sa; reflexivity); try (destruct sb; reflexivity).
  cbn [SFcompare option_map].
  rewrite (Z.compare_antisym ea eb).
  replace (Pos.compare_cont Eq mb ma) with (CompOpp (Pos.compare_cont Eq ma mb))
    by (rewrite Pos.compare_cont_antisym; reflexivity).
  destruct sa, sb; cbn [CompOpp]; try reflexivity;
    destruct (ea ?= eb); cbn [CompOpp]; try reflexivity.
  all: destruct (Pos.compare_cont Eq ma mb); reflexivity.
Qed.

Lemma gtb_ltb (a b : float64) : F64.gtb a b = F64.ltb b a.
Proof.
  unfold F64.gtb, F64.ltb, SFltb. rewrite (compare_swap a b).
  destruct (SFcompare a b) as [[ | | ]|]; reflexivity.
Qed.

Lemma ltb_gtb_excl (a b : float64) : F64.ltb a b = true -> F64.gtb a b = false.
Proof.
  unfold F64.gtb, F64.ltb, SFltb.
  destruct (SFcompare a b) as [[ | | ]|]; congruence.
Qed.

Lemma ltb_nan_l (b : float64) : F64.ltb F64.NaN b = false.
Proof. reflexivity. Qed.

Lemma ltb_nan_r (a : float64) : F64.ltb a F64.NaN = false.
Proof. destruct a; reflexivity. Qed.

Lemma sub_nan_r (a : float64) : F64.sub a F64.NaN = F64.NaN.
Proof. destruct a; reflexivity. Qed.

End F64Facts.

Module ApproxFacts.

Import F64Facts.

(** [floatApproxEquals] does not depend on the order of its arguments. *)
Lemma floatApproxEquals_sym (a b : float64) :
  floatApproxEquals a b = floatApproxEquals b a.
Proof. unfold floatApproxEquals. now rewrite abs_sub_comm. Qed.

Lemma floatApproxEquals_nan_l (b : float64) :
  floatApproxEquals F64.NaN b = false.
Proof. reflexivity. Qed.

Lemma floatApproxEquals_nan_r (a : float64) :
  floatApproxEquals a F64.NaN = false.
Proof. rewrite floatApproxEquals_sym. reflexivity. Qed.

Lemma floatApproxEquals_same_inf (a b : float64) :
  F64.same_inf a b = true -> floatApproxEquals a b = false.
Proof.
  destruct a as [sa|sa| |sa ma ea], b as [sb|sb| |sb mb eb]; try discriminate.
  destruct sa, sb; try discriminate; reflexivity.
Qed.

Lemma sub_diag_finite (s : bool) (m : positive) (e : Z) :
  F64.sub (S754_finite s m e) (S754_finite s m e) = S754_zero false.
Proof.
  unfold F64.sub, SFsub. rewrite Z.sub_diag. reflexivity.
Qed.

(** Operands that compare equal are approximately equal, unless their
    difference is not a number. *)
Lemma compare_Eq_approx (a b : float64) :
  SFcompare a b = Some Eq -> F64.same_inf a b = false ->
  floatApproxEquals a b = true.
Proof.
  destruct a as [sa|sa| |sa ma ea], b as [sb|sb| |sb mb eb];
    cbn [SFcompare F64.same_inf]; intros H Hinf;
    try discriminate;
    try (destruct sa; discriminate); try (destruct sb; discriminate);
    try (destruct sa, sb; (discriminate || reflexivity)).
  injection H as H.
    assert (sa = sb /\ ea = eb /\ ma = mb) as (-> & -> & ->).
    { destruct sa, sb; try discriminate;
        destruct (ea ?= eb) eqn:He; try discriminate;
        apply Z.compare_eq in He;
        destruct (Pos.compare_cont Eq ma mb) eqn:Hm; try discriminate;
        apply Pos.compare_eq in Hm; auto. }
    unfold floatApproxEquals. rewrite sub_diag_finite. reflexivity.
Qed.

(** The last branch of the float comparator is taken exactly on a NaN
    operand and on two infinities of the same sign. *)
Lemma floatFallback_iff (a b : float64) :
  floatFallback a b = true
  <-> F64.is_nan a = true \/ F64.is_nan b = true \/ F64.same_inf a b = true.
Proof.
  unfold floatFallback. split.
  - intros H. apply andb_true_iff in H as [H Hgt].
    apply andb_true_iff in H as [Hap Hlt].
    apply negb_true_iff in Hap, Hlt, Hgt.
    destruct (F64.is_nan a) eqn:Ha; [now left|].
    destruct (F64.is_nan b) eqn:Hb; [now (right; left)|].
    destruct (F64.same_inf a b) eqn:Hi; [now (right; right)|].
    exfalso.
    unfold F64.ltb, SFltb in Hlt. unfold F64.gtb in Hgt.
    destruct (SFcompare a b) as [[ | | ]|] eqn:Hc; try discriminate.
    + rewrite (compare_Eq_approx a b Hc Hi) in Hap. discriminate.
    + destruct a, b; try discriminate.
  - intros [H | [H | H]].
    + destruct a; try discriminate. reflexivity.
    + destruct b; try discriminate.
      rewrite floatApproxEquals_nan_r, ltb_nan_r.
      unfold F64.gtb. destruct a; reflexivity.
    + rewrite (floatApproxEquals_same_inf a b H).
      destruct a as [sa|sa| |sa ma ea], b as [sb|sb| |sb mb eb]; try discriminate.
      destruct sa, sb; try discriminate; reflexivity.
Qed.

End ApproxFacts.

(** ** Unfolding [valueMatches] and [compareValues] on typed payloads *)

Section Equations.

Variable EqualFold : string -> string -> bool.

Lemma valueMatches_string (e : SchemaElem) (v : string) (f : Value) (m : string) :
  valueMatches EqualFold (mkSchema TypeString e) (VString v) f m
  = if (m =? "substring")%string then
      f' <- assertString f ;; Ok (strings.Contains v f')
    else if (m =? "re")%string then
      re <- assertRegexp f ;; Ok (MatchString re v)
    else f' <- assertString f ;; Ok (EqualFold f' v).
Proof.
  cbn. destruct (m =? "substring")%string; [reflexivity|].
  destruct (m =? "re")%string; [|destruct f; reflexivity].
  destruct f; reflexivity.
Qed.

Lemma valueMatches_bool (e : SchemaElem) (v f : bool) (m : string) :
  valueMatches EqualFold (mkSchema TypeBool e) (VBool v) (VBool f) m
  = Ok (Bool.eqb f v).
Proof. reflexivity. Qed.

Lemma valueMatches_int (e : SchemaElem) (val filter : Z) (m : string) :
  valueMatches EqualFold (mkSchema TypeInt e) (VInt val) (VInt filter) m
  = if (m =? "less_than")%string then Ok (val <? filter)
    else if (m =? "less_than_or_equal")%string then Ok (val <=? filter)
    else if (m =? "greater_than")%string then Ok (val >? filter)
    else if (m =? "greater_than_or_equal")%string then Ok (val >=? filter)
    else Ok (val =? filter).
Proof. reflexivity. Qed.

Lemma valueMatches_float (e : SchemaElem) (val filter : float64) (m : string) :
  valueMatches EqualFold (mkSchema TypeFloat e) (VFloat val) (VFloat filter) m
  = if (m =? "less_than")%string then
      Ok (F64.neqb val F64.zero && F64.ltb val filter)
    else if (m =? "less_than_or_equal")%string then
      Ok (F64.neqb val F64.zero
          && (F64.ltb val filter || floatApproxEquals filter val))
    else if (m =? "greater_than")%string then
      Ok (F64.neqb val F64.zero && F64.gtb val filter)
    else if (m =? "greater_than_or_equal")%string then
      Ok (F64.neqb val F64.zero
          && (F64.gtb val filter || floatApproxEquals filter val))
    else Ok (floatApproxEquals filter val).
Proof. reflexivity. Qed.

Lemma valueMatches_collection (t : ValueType) (es : Schema) (l : list Value)
    (f : Value) (m : string) :
  t = TypeList \/ t = TypeSet ->
  valueMatches EqualFold (mkSchema t (ElemSchema es)) (collection t l) f m
  = rangeOr (fun x => valueMatches EqualFold es x f m) l false.
Proof. intros [-> | ->]; reflexivity. Qed.

Lemma valueMatches_unknown (t : ValueType) (e : SchemaElem) (v f : Value)
    (m : string) :
  ~ In t [TypeString; TypeBool; TypeInt; TypeFloat; TypeList; TypeSet] ->
  valueMatches EqualFold (mkSchema t e) v f m = Ok false.
Proof.
  intros H. cbn [valueMatches].
  repeat match goal with
         | |- context [Z.eqb t ?c] =>
             destruct (Z.eqb_spec t c) as [->|_];
             [exfalso; apply H; cbn [In]; tauto|]
         end.
  reflexivity.
Qed.

End Equations.

Lemma compareValues_float (s : Schema) (a b : float64) :
  SType s = TypeFloat ->
  compareValues s (VFloat a) (VFloat b)
  = if floatApproxEquals a b then Ok 0
    else if F64.ltb a b then Ok (-1)
    else if F64.gtb a b then Ok 1
    else Ok 0.
Proof. unfold compareValues. intros ->. reflexivity. Qed.

(** A mode outside a list of literals differs from each of them. *)
Lemma mode_not_in (m lit : string) (modes : list string) :
  ~ In m modes -> In lit modes -> (m =? lit)%string = false.
Proof.
  intros Hn Hi. apply String.eqb_neq. intros ->. contradiction.
Qed.

(* ================================================================= *)
(** ** The matcher *)

Section MatcherProperties.

Variable EqualFold : string -> string -> bool.

(** C1. Zero-as-absent: on a Float schema, a value that is [== 0.0] fails
    each of the four relational modes, whatever the filter. *)
Theorem zero_value_never_relational (e : SchemaElem) (a f : float64)
    (m : string) :
  F64.eqb a F64.zero = true ->
  In m relationalModes ->
  valueMatches EqualFold (mkSchema TypeFloat e) (VFloat a) (VFloat f) m = Ok false.
Proof.
  intros Hz Hm. rewrite valueMatches_float.
  unfold F64.neqb. fold (F64.eqb a F64.zero). rewrite Hz.
  cbn [In relationalModes] in Hm.
  destruct Hm as [<- | [<- | [<- | [<- | []]]]]; reflexivity.
Qed.

(** C2. Epsilon-tolerant equality: when [|a - b| < 1e-6] (as
    [floatApproxEquals] computes it), the default mode of the matcher
    accepts value [a] against filter [b], and the comparator returns 0. *)
Theorem approx_equal_matches_and_compares (e : SchemaElem) (a b : float64) :
  F64.ltb (F64.abs (F64.sub a b)) F64.epsilon = true ->
  valueMatches EqualFold (mkSchema TypeFloat e) (VFloat a) (VFloat b) "" = Ok true
  /\ compareValues (mkSchema TypeFloat e) (VFloat a) (VFloat b) = Ok 0.
Proof.
  intros H. fold (floatApproxEquals a b) in H. split.
  - rewrite valueMatches_float. cbn [String.eqb].
    now rewrite ApproxFacts.floatApproxEquals_sym, H.
  - rewrite compareValues_float by reflexivity. now rewrite H.
Qed.

(** C9. NaN never matches: a NaN value fails every mode against every
    filter, and so does every value against a NaN filter; in particular
    the approximate equality used by the default and ["..._or_equal"]
    modes is false on a NaN filter. *)
Theorem nan_never_matches (e : SchemaElem) (x : float64) (m : string) :
  valueMatches EqualFold (mkSchema TypeFloat e) (VFloat F64.NaN) (VFloat x) m = Ok false
  /\ valueMatches EqualFold (mkSchema TypeFloat e) (VFloat x) (VFloat F64.NaN) m = Ok false
  /\ floatApproxEquals F64.NaN x = false.
Proof.
  repeat split.
  - rewrite valueMatches_float, ApproxFacts.floatApproxEquals_nan_r.
    repeat match goal with |- context [String.eqb m ?l] =>
      destruct (String.eqb m l) end; reflexivity.
  - rewrite valueMatches_float.
    rewrite F64Facts.gtb_ltb, F64Facts.ltb_nan_r.
    replace (F64.ltb F64.NaN x) with false by reflexivity.
    replace (floatApproxEquals F64.NaN x) with false by reflexivity.
    repeat match goal with |- context [String.eqb m ?l] =>
      destruct (String.eqb m l) end;
      cbn [orb]; rewrite ?andb_false_r; reflexivity.
Qed.

(** C10. The zero test looks at the value only, and only at [val != 0.]:
    for a value that is not zero the four relational modes are the plain
    comparisons against the filter.  So [1e-9], although within the
    tolerance of zero, is compared as usual, and a zero filter does not
    trigger the rule. *)
Theorem nonzero_value_compared_normally (e : SchemaElem) (val filter : float64) :
  F64.neqb val F64.zero = true ->
  let s := mkSchema TypeFloat e in
  (valueMatches EqualFold s (VFloat val) (VFloat filter) "less_than"
   = Ok (F64.ltb val filter)
   /\ valueMatches EqualFold s (VFloat val) (VFloat filter) "less_than_or_equal"
      = Ok (F64.ltb val filter || floatApproxEquals filter val)
   /\ valueMatches EqualFold s (VFloat val) (VFloat filter) "greater_than"
      = Ok (F64.gtb val filter)
   /\ valueMatches EqualFold s (VFloat val) (VFloat filter) "greater_than_or_equal"
      = Ok (F64.gtb val filter || floatApproxEquals filter val))
  /\ (floatApproxEquals F64.nano F64.zero = true
      /\ valueMatches EqualFold s (VFloat F64.nano) (VFloat F64.zero) "greater_than" = Ok true
      /\ valueMatches EqualFold s (VFloat F64.nano) (VFloat F64.one) "less_than" = Ok true)
  /\ valueMatches EqualFold s (VFloat F64.one) (VFloat F64.zero) "greater_than" = Ok true.
Proof.
  intros H s. subst s. rewrite !valueMatches_float, H.
  repeat split.
Qed.

(** C4. Soft fallback: a mode the type does not know selects the default
    equality of the type, the mode is ignored on Bool, and a type tag the
    matcher does not know gives false; none of these panics. *)
Theorem unsupported_mode_falls_back (e : SchemaElem) (m : string)
    (t : ValueType) :
  (forall v f : string,
      ~ In m ["substring"; "re"]%string ->
      valueMatches EqualFold (mkSchema TypeString e) (VString v) (VString f) m
      = Ok (EqualFold f v))
  /\ (forall v f : bool,
         valueMatches EqualFold (mkSchema TypeBool e) (VBool v) (VBool f) m
         = Ok (Bool.eqb f v))
  /\ (forall v f : Z,
         ~ In m relationalModes ->
         valueMatches EqualFold (mkSchema TypeInt e) (VInt v) (VInt f) m = Ok (v =? f))
  /\ (forall v f : float64,
         ~ In m relationalModes ->
         valueMatches EqualFold (mkSchema TypeFloat e) (VFloat v) (VFloat f) m
         = Ok (floatApproxEquals f v))
  /\ (forall v f : Value,
         ~ In t [TypeString; TypeBool; TypeInt; TypeFloat; TypeList; TypeSet] ->
         valueMatches EqualFold (mkSchema t e) v f m = Ok false).
Proof.
  repeat split.
  - intros v f H. rewrite valueMatches_string.
    rewrite !(mode_not_in m _ _ H) by (cbn [In]; tauto). reflexivity.
  - intros v f H. rewrite valueMatches_int.
    rewrite !(mode_not_in m _ _ H) by (cbn [In relationalModes]; tauto).
    reflexivity.
  - intros v f H. rewrite valueMatches_float.
    rewrite !(mode_not_in m _ _ H) by (cbn [In relationalModes]; tauto).
    reflexivity.
  - intros v f H. now apply valueMatches_unknown.
Qed.

End MatcherProperties.

(** ** Strings *)

Module StringsFacts.

Import strings.

Lemma HasPrefix_iff (prefix s : string) :
  HasPrefix s prefix = true <-> exists suf, s = (prefix ++ suf)%string.
Proof.
  revert s. induction prefix as [|c prefix IH]; intros s.
  - split; [intros _; now exists s | reflexivity].
  - destruct s as [|d s]; cbn [HasPrefix append].
    + split; [discriminate | intros [suf H]; discriminate].
    + rewrite andb_true_iff, IH. split.
      * intros [Hc [suf ->]]. apply Ascii.eqb_eq in Hc as ->. now exists suf.
      * intros [suf H]. injection H as -> ->.
        split; [apply Ascii.eqb_refl | now exists suf].
Qed.

Lemma Contains_cons (c : ascii) (s substr : string) :
  Contains (String c s) substr
  = HasPrefix (String c s) substr || Contains s substr.
Proof. reflexivity. Qed.

(** [Contains s substr] holds exactly when [substr] occurs in [s]. *)
Lemma Contains_iff (s substr : string) :
  Contains s substr = true
  <-> exists pre suf, s = (pre ++ substr ++ suf)%string.
Proof.
  split.
  - induction s as [|c s IH].
    + cbn [Contains]. rewrite orb_false_r. intros H.
      apply HasPrefix_iff in H as [suf H]. now exists EmptyString, suf.
    + rewrite Contains_cons, orb_true_iff. intros [H | H].
      * apply HasPrefix_iff in H as [suf H]. now exists EmptyString, suf.
      * destruct (IH H) as (pre & suf & ->). now exists (String c pre), suf.
  - intros (pre & suf & ->). induction pre as [|c pre IH].
    + cbn [append].
      assert (HasPrefix (substr ++ suf) substr = true) as H
          by (apply HasPrefix_iff; now exists suf).
      destruct (substr ++ suf)%string; cbn [Contains]; now rewrite H.
    + cbn [append]. rewrite Contains_cons, IH. apply orb_true_r.
Qed.

Lemma Compare_antisym (a b : string) : Compare b a = - Compare a b.
Proof.
  revert b. induction a as [|c a IH]; intros [|d b]; try reflexivity.
  cbn [Compare]. rewrite (N.compare_antisym (N_of_ascii c) (N_of_ascii d)).
  destruct (N_of_ascii c ?= N_of_ascii d)%N; cbn [CompOpp];
    [apply IH | reflexivity | reflexivity].
Qed.

Lemma Compare_range (a b : string) : -1 <= Compare a b <= 1.
Proof.
  revert b. induction a as [|c a IH]; intros [|d b]; cbn [Compare]; try lia.
  destruct (N_of_ascii c ?= N_of_ascii d)%N; [apply IH | lia | lia].
Qed.

(** [Compare] is 0 exactly on equal strings. *)
Lemma Compare_eq_iff (a b : string) : Compare a b = 0 <-> a = b.
Proof.
  revert b. induction a as [|c a IH]; intros [|d b]; cbn [Compare];
    try (split; (discriminate || reflexivity)).
  destruct (N_of_ascii c ?= N_of_ascii d)%N eqn:Hc.
  - apply N.compare_eq in Hc.
    assert (c = d) as -> by
        (rewrite <- (ascii_N_embedding c), <- (ascii_N_embedding d); now f_equal).
    rewrite IH. split; [now intros -> | now intros [= ->]].
  - split; [discriminate | intros [= -> _]].
    rewrite N.compare_refl in Hc. discriminate.
  - split; [discriminate | intros [= -> _]].
    rewrite N.compare_refl in Hc. discriminate.
Qed.

End StringsFacts.

Section StringMatcher.

Variable EqualFold : string -> string -> bool.

(** C6. String modes: ["substring"] tests whether the value contains the
    filter, ["re"] whether the compiled pattern given as filter matches the
    value, and every other mode, the empty one included, is
    [strings.EqualFold] of filter and value. *)
Theorem string_match_modes (e : SchemaElem) (v f : string) (re : Regexp)
    (m : string) :
  let s := mkSchema TypeString e in
  (valueMatches EqualFold s (VString v) (VString f) "substring"
   = Ok (strings.Contains v f)
   /\ (strings.Contains v f = true
       <-> exists pre suf, v = (pre ++ f ++ suf)%string))
  /\ valueMatches EqualFold s (VString v) (VRegexp re) "re"
     = Ok (MatchString re v)
  /\ (m <> "substring"%string -> m <> "re"%string ->
      valueMatches EqualFold s (VString v) (VString f) m
      = Ok (EqualFold f v))
  /\ valueMatches EqualFold s (VString v) (VString f) ""
     = Ok (EqualFold f v).
Proof.
  intros s. subst s. rewrite !valueMatches_string.
  repeat split; try reflexivity.
  - apply StringsFacts.Contains_iff.
  - apply StringsFacts.Contains_iff.
  - intros H1 H2. apply String.eqb_neq in H1, H2. now rewrite H1, H2.
Qed.

End StringMatcher.

(* ================================================================= *)
(** ** The comparator *)

(** C3. Hard failure: on a List or Set schema, and on every type tag other
    than String, Bool, Int and Float, [compareValues] panics with its
    "Illegal state" message whatever the two values are; it does not
    return. *)
Theorem compare_unsupported_panics (s : Schema) (v1 v2 : Value) :
  ~ In (SType s) [TypeString; TypeBool; TypeInt; TypeFloat] ->
  compareValues s v1 v2 = Panicked (Explicit unsupportedSort)
  /\ ~ returns (compareValues s v1 v2).
Proof.
  intros H.
  assert (compareValues s v1 v2 = Panicked (Explicit unsupportedSort)) as E.
  { unfold compareValues. cbv zeta.
    repeat match goal with
           | |- context [Z.eqb (SType s) ?c] =>
               destruct (Z.eqb_spec (SType s) c) as [Heq|_];
               [exfalso; apply H; rewrite Heq; cbn [In]; tauto|]
           end.
    reflexivity. }
  split; [exact E | intros [c Hc]; congruence].
Qed.

(** C8. Fallback of the float comparator: when neither the
    approximate equality nor [<] nor [>] holds, the result is 0.  That
    happens exactly when an operand is NaN or both are the same infinity
    (their difference is NaN).  On floats the comparator always returns,
    and it returns 0 when either operand is NaN. *)
Theorem compare_float_fallback (s : Schema) (a b : float64) :
  SType s = TypeFloat ->
  (floatFallback a b = true -> compareValues s (VFloat a) (VFloat b) = Ok 0)
  /\ (floatFallback a b = true
      <-> F64.is_nan a = true \/ F64.is_nan b = true \/ F64.same_inf a b = true)
  /\ returns (compareValues s (VFloat a) (VFloat b))
  /\ (F64.is_nan a = true \/ F64.is_nan b = true ->
      compareValues s (VFloat a) (VFloat b) = Ok 0).
Proof.
  intros Hs.
  assert (floatFallback a b = true ->
          compareValues s (VFloat a) (VFloat b) = Ok 0) as Hfb.
  { unfold floatFallback. intros H.
    apply andb_true_iff in H as [H Hgt]. apply andb_true_iff in H as [Hap Hlt].
    apply negb_true_iff in Hap, Hlt, Hgt.
    rewrite compareValues_float by assumption. now rewrite Hap, Hlt, Hgt. }
  repeat split.
  - exact Hfb.
  - apply ApproxFacts.floatFallback_iff.
  - apply ApproxFacts.floatFallback_iff.
  - rewrite compareValues_float by assumption. unfold returns.
    destruct (floatApproxEquals a b); [now eexists|].
    destruct (F64.ltb a b); [now eexists|].
    destruct (F64.gtb a b); now eexists.
  - intros H. apply Hfb, ApproxFacts.floatFallback_iff. tauto.
Qed.

(** The comparator on typed scalar operands returns, and swapping the
    operands negates the result. *)
Lemma compareValues_antisym (s : Schema) (a b : Value) :
  In (SType s) [TypeString; TypeBool; TypeInt; TypeFloat] ->
  hasType (SType s) a = true -> hasType (SType s) b = true ->
  exists c, compareValues s a b = Ok c /\ compareValues s b a = Ok (- c)
            /\ -1 <= c <= 1.
Proof.
  intros Ht Ha Hb. unfold compareValues. cbv zeta.
  cbn [In] in Ht. destruct Ht as [Ht | [Ht | [Ht | [Ht | []]]]];
    rewrite <- Ht in *; clear Ht;
    destruct a as [ |x|x|x|x|x|x|x]; try discriminate Ha;
    destruct b as [ |y|y|y|y|y|y|y]; try discriminate Hb;
    cbn -[floatApproxEquals F64.ltb F64.gtb strings.Compare Z.ltb Z.gtb].
  - exists (strings.Compare x y). rewrite (StringsFacts.Compare_antisym x y).
    repeat split; apply StringsFacts.Compare_range.
  - destruct x, y; cbn; eexists; repeat split; lia.
  - rewrite !Z.gtb_ltb.
    destruct (Z.ltb_spec x y), (Z.ltb_spec y x); try lia;
      eexists; repeat split; lia.
  - rewrite (ApproxFacts.floatApproxEquals_sym y x), !F64Facts.gtb_ltb.
    destruct (floatApproxEquals x y); [exists 0; repeat split; lia|].
    destruct (F64.ltb x y) eqn:Hxy.
    + apply F64Facts.ltb_gtb_excl in Hxy as Hyx.
      rewrite F64Facts.gtb_ltb in Hyx. rewrite Hyx.
      exists (-1). repeat split; lia.
    + destruct (F64.ltb y x); eexists; repeat split; lia.
Qed.

(** ** Collections *)

Section RangeOr.

Variable f : Value -> result bool.

Lemma rangeOr_returns (l : list Value) (acc : bool) :
  (forall x, In x l -> returns (f x)) ->
  exists r, rangeOr f l acc = Ok r
            /\ (r = true <-> acc = true \/ exists x, In x l /\ f x = Ok true).
Proof.
  revert acc. induction l as [|x l IH]; intros acc H.
  - exists acc. split; [reflexivity|]. split; [tauto|].
    intros [? | (x & [] & _)]; assumption.
  - destruct (H x (or_introl eq_refl)) as [b Hb].
    destruct (IH (acc || b)%bool (fun y Hy => H y (or_intror Hy)))
      as (r & Hr & Hiff).
    exists r. cbn [rangeOr]. rewrite Hb. cbn [bind]. split; [exact Hr|].
    rewrite Hiff, orb_true_iff. split.
    + intros [[Ha | ->] | (y & Hy & Hfy)]; [now left | right | right].
      * exists x. split; [now left | exact Hb].
      * exists y. split; [now right | exact Hfy].
    + intros [Ha | (y & [<- | Hy] & Hfy)].
      * now left; left.
      * left; right. congruence.
      * right. now exists y.
Qed.

Lemma rangeOr_Permutation (l l' : list Value) (acc : bool) :
  Permutation l l' ->
  (forall x, In x l -> returns (f x)) ->
  rangeOr f l' acc = rangeOr f l acc.
Proof.
  intros Hp H.
  destruct (rangeOr_returns l acc H) as (r & -> & Hr).
  destruct (rangeOr_returns l' acc) as (r' & -> & Hr').
  { intros x Hx. apply H. now apply (Permutation_in x (Permutation_sym Hp)). }
  f_equal.
  assert (r' = true <-> r = true) as Hiff.
  { rewrite Hr, Hr'. split; (intros [Ha | (x & Hx & Hfx)]; [now left | right]);
      exists x; split; try assumption.
    - now apply (Permutation_in x (Permutation_sym Hp)).
    - now apply (Permutation_in x Hp). }
  destruct r, r'; try reflexivity.
  - now apply Hiff.
  - symmetry. now apply Hiff.
Qed.

End RangeOr.

Section Collections.

Variable EqualFold : string -> string -> bool.

(** On payloads of the types the schema and the mode call for, no type
    assertion fails: the matcher returns. *)
Lemma valueMatches_returns :
  forall (s : Schema) (v f : Value) (m : string),
    wellTyped s v = true -> filterTyped s f m = true ->
    returns (valueMatches EqualFold s v f m).
Proof.
  fix IH 1. intros [t e] v f m.
  cbn [valueMatches wellTyped filterTyped].
  destruct (Z.eqb_spec t TypeString) as [->|_].
  { cbn -[strings.Contains]. intros Hv Hf. destruct v; try discriminate Hv.
    destruct (String.eqb_spec m "substring") as [->|_].
    { destruct f; try discriminate Hf. eexists; reflexivity. }
    destruct (String.eqb_spec m "re") as [->|_];
      destruct f; try discriminate Hf; eexists; reflexivity. }
  destruct (Z.eqb_spec t TypeBool) as [->|_].
  { cbn. intros Hv Hf. destruct v; try discriminate Hv.
    destruct f; try discriminate Hf. eexists; reflexivity. }
  destruct (Z.eqb_spec t TypeInt) as [->|_].
  { cbn -[Z.ltb Z.leb Z.gtb Z.geb Z.eqb]. intros Hv Hf.
    destruct v; try discriminate Hv. destruct f; try discriminate Hf.
    cbn [bind assertInt].
    repeat match goal with |- context [String.eqb m ?l] =>
      destruct (String.eqb m l) end; eexists; reflexivity. }
  destruct (Z.eqb_spec t TypeFloat) as [->|_].
  { cbn -[floatApproxEquals F64.ltb F64.gtb F64.neqb]. intros Hv Hf.
    destruct v; try discriminate Hv. destruct f; try discriminate Hf.
    cbn [bind assertFloat64].
    repeat match goal with |- context [String.eqb m ?l] =>
      destruct (String.eqb m l) end; eexists; reflexivity. }
  destruct (Z.eqb_spec t TypeList) as [->|_].
  { cbn [orb]. intros Hv Hf.
    destruct v; try discriminate Hv. destruct e as [|es|]; try discriminate Hv.
    cbn [bind assertSlice].
    destruct (rangeOr_returns (fun x => valueMatches EqualFold es x f m) l false)
      as (r & Hr & _); [|now exists r].
    intros x Hx. rewrite forallb_forall in Hv. apply IH; auto. }
  destruct (Z.eqb_spec t TypeSet) as [->|_].
  { cbn [orb]. intros Hv Hf.
    destruct v; try discriminate Hv. destruct e as [|es|]; try discriminate Hv.
    cbn [bind assertSet].
    destruct (rangeOr_returns (fun x => valueMatches EqualFold es x f m) l false)
      as (r & Hr & _); [|now exists r].
    intros x Hx. rewrite forallb_forall in Hv. apply IH; auto. }
  intros _ _. eexists; reflexivity.
Qed.

(** C5. OR over a collection: on a List or Set schema whose elements all
    evaluate, the matcher returns true exactly when some element matches
    under the same filter and mode; the empty collection gives false, and
    reordering the elements does not change the result. *)
Theorem collection_matches_any (t : ValueType) (es : Schema)
    (l l' : list Value) (f : Value) (m : string) :
  t = TypeList \/ t = TypeSet ->
  (forall x, In x l -> returns (valueMatches EqualFold es x f m)) ->
  let s := mkSchema t (ElemSchema es) in
  (exists r, valueMatches EqualFold s (collection t l) f m = Ok r
             /\ (r = true
                 <-> exists x, In x l
                               /\ valueMatches EqualFold es x f m = Ok true))
  /\ valueMatches EqualFold s (collection t []) f m = Ok false
  /\ (Permutation l l' ->
      valueMatches EqualFold s (collection t l') f m
      = valueMatches EqualFold s (collection t l) f m).
Proof.
  intros Ht H s. subst s. rewrite !valueMatches_collection by assumption.
  repeat split.
  - destruct (rangeOr_returns _ l false H) as (r & Hr & Hiff).
    exists r. split; [exact Hr|]. rewrite Hiff. split; [|tauto].
    intros [? | ?]; [discriminate | assumption].
  - intros Hp. now apply rangeOr_Permutation.
Qed.

End Collections.

(** ** Sorting *)

Section InsertionSortFacts.

Variable A : Type.
Variable lessFn : A -> A -> result bool.

(** [dom] is the set of elements on which [lessFn] is used, and
    [le a b] the order it decides: on [dom], [lessFn x y] returns, a true
    answer gives [le x y] and a false one [le y x]. *)
Variable dom : A -> Prop.
Variable le : A -> A -> Prop.

Hypothesis lessFn_decides :
  forall x y, dom x -> dom y ->
    (lessFn x y = Ok true /\ le x y) \/ (lessFn x y = Ok false /\ le y x).

(** The sorted prefix is kept from its last element down to its first;
    adjacent elements of that list are related the other way round. *)
Let ge : A -> A -> Prop := flipped le.

Lemma insertLeft_sorted (x : A) (before : list A) :
  dom x -> Forall dom before -> Sorted ge before ->
  exists r, insertLeft lessFn x before = Ok r
            /\ Sorted ge r
            /\ Permutation (x :: before) r
            /\ (forall y, HdRel ge y before -> le x y -> HdRel ge y r).
Proof.
  intros Hx. induction before as [|y before IH]; intros Hdom Hs.
  - exists [x]. repeat split; auto.
  - apply Forall_cons_iff in Hdom as [Hy Hdom].
    apply Sorted_inv in Hs as [Hs Hhd].
    cbn [insertLeft].
    destruct (lessFn_decides x y Hx Hy) as [[-> Hle] | [-> Hle]]; cbn [bind].
    + destruct (IH Hdom Hs) as (r & -> & Hsr & Hp & Hh). cbn [bind].
      exists (y :: r). repeat split.
      * constructor; [exact Hsr | now apply Hh].
      * rewrite perm_swap. now constructor.
      * intros z Hz _. apply HdRel_inv in Hz. now constructor.
    + exists (x :: y :: before). repeat split.
      * constructor; [now constructor | now constructor].
      * reflexivity.
      * intros z _ Hz. now constructor.
Qed.

Lemma Sorted_middle (R : A -> A -> Prop) (p q : list A) (a b : A) :
  Sorted R (p ++ a :: b :: q) -> R a b.
Proof.
  induction p as [|z p IH]; cbn [app]; intros H; apply Sorted_inv in H as [H Hh].
  - now apply HdRel_inv in Hh.
  - now apply IH.
Qed.

Lemma adjacentPairs_rev (l : list A) :
  Sorted ge l -> adjacentPairs le (rev l).
Proof.
  intros Hs l1 a b l2 E.
  apply (f_equal (@rev A)) in E. rewrite rev_involutive, rev_app_distr in E.
  cbn [rev] in E. rewrite <- !app_assoc in E. cbn [app] in E. subst l.
  apply (Sorted_middle ge _ _ b a Hs).
Qed.

Lemma insertionLoop_sorted (rest before : list A) :
  Forall dom before -> Forall dom rest -> Sorted ge before ->
  exists r, insertionLoop lessFn before rest = Ok r
            /\ Permutation (rev before ++ rest) r
            /\ adjacentPairs le r.
Proof.
  revert before. induction rest as [|x rest IH]; intros before Hb Hr Hs.
  - exists (rev before). repeat split.
    + now rewrite app_nil_r.
    + now apply adjacentPairs_rev.
  - apply Forall_cons_iff in Hr as [Hx Hr]. cbn [insertionLoop].
    destruct (insertLeft_sorted x before Hx Hb Hs) as (b' & -> & Hs' & Hp & _).
    cbn [bind].
    destruct (IH b') as (r & -> & Hp' & Hadj); auto.
    { apply (Permutation_Forall Hp). now constructor. }
    exists r. repeat split; auto.
    rewrite <- Hp'.
    replace (rev before ++ x :: rest) with (rev (x :: before) ++ rest)
      by (cbn [rev]; now rewrite <- app_assoc).
    apply Permutation_app_tail.
    now rewrite <- !Permutation_rev.
Qed.

Lemma insertionSort_sorted (data : list A) :
  Forall dom data ->
  exists r, insertionSort lessFn data = Ok r
            /\ Permutation data r
            /\ adjacentPairs le r.
Proof.
  intros H. apply (insertionLoop_sorted data []); auto.
Qed.

End InsertionSortFacts.

(** On typed scalar operands, [less] returns and decides [inOrder]. *)
Lemma less_decides (s : Schema) (a b : Value) :
  In (SType s) [TypeString; TypeBool; TypeInt; TypeFloat] ->
  hasType (SType s) a = true -> hasType (SType s) b = true ->
  (less s a b = Ok true /\ inOrder s a b)
  \/ (less s a b = Ok false /\ inOrder s b a).
Proof.
  intros Ht Ha Hb.
  destruct (compareValues_antisym s a b Ht Ha Hb) as (c & Hab & Hba & _).
  unfold less, inOrder. rewrite Hab, Hba. cbn [bind].
  destruct (Z.ltb_spec c 0); [left | right]; (split; [reflexivity|]);
    eexists; (split; [reflexivity | lia]).
Qed.

(** A pair that [sort.IsSorted] accepts (the second element is not [less]
    than the first) is in order. *)
Lemma noInversion_inOrder (s : Schema) (a b : Value) :
  In (SType s) [TypeString; TypeBool; TypeInt; TypeFloat] ->
  hasType (SType s) a = true -> hasType (SType s) b = true ->
  noInversion s a b -> inOrder s a b.
Proof.
  intros Ht Ha Hb (c & Hc & Hpos).
  destruct (compareValues_antisym s b a Ht Hb Ha) as (c' & Hba & Hab & _).
  exists (- c'). split; [exact Hab|]. rewrite Hba in Hc. injection Hc as ->. lia.
Qed.

Section ComparisonSortFacts.

Variable A : Type.
Variable cmp : A -> A -> result Z.
Variable dom : A -> Prop.

Let le : A -> A -> Prop := fun x y => exists c, cmp x y = Ok c /\ c <= 0.

Hypothesis cmp_swap :
  forall x y, dom x -> dom y -> exists c, cmp x y = Ok c /\ cmp y x = Ok (- c).

Lemma partition3_spec (p : A) (l : list A) :
  dom p -> Forall dom l ->
  exists lt eq gt,
    partition3 cmp p l = Ok (lt, eq, gt)
    /\ Permutation l (lt ++ eq ++ gt)
    /\ Forall (fun x => le x p) lt
    /\ Forall (fun x => le x p /\ le p x) eq
    /\ Forall (fun x => le p x) gt.
Proof.
  intros Hp. induction l as [|x l IH]; intros Hl.
  - exists [], [], []. repeat split; constructor.
  - apply Forall_cons_iff in Hl as [Hx Hl].
    destruct (IH Hl) as (lt & eq & gt & E & Hperm & Hlt & Heq & Hgt).
    destruct (cmp_swap x p Hx Hp) as (c & Hc & Hc').
    cbn [partition3]. rewrite Hc, E. cbn [bind].
    destruct (Z.ltb_spec c 0) as [Hneg|Hnn];
      [|destruct (Z.eqb_spec c 0) as [Hz|Hnz]].
    + exists (x :: lt), eq, gt. repeat split; try assumption.
      * cbn [app]. now constructor.
      * constructor; [|assumption]. exists c. split; [assumption | lia].
    + exists lt, (x :: eq), gt. repeat split; try assumption.
      * now apply Permutation_cons_app.
      * constructor; [|assumption].
        split; [exists c | exists (- c)]; (split; [assumption | lia]).
    + exists lt, eq, (x :: gt). repeat split; try assumption.
      * rewrite app_assoc. apply Permutation_cons_app. now rewrite <- app_assoc.
      * constructor; [|assumption]. exists (- c). split; [assumption | lia].
Qed.

Lemma StronglySorted_app (R : A -> A -> Prop) (l1 l2 : list A) :
  StronglySorted R l1 -> StronglySorted R l2 ->
  (forall x y, In x l1 -> In y l2 -> R x y) ->
  StronglySorted R (l1 ++ l2).
Proof.
  induction l1 as [|a l1 IH]; intros H1 H2 H12; [exact H2|].
  apply StronglySorted_inv in H1 as [H1 Ha]. cbn [app]. constructor.
  - apply IH; try assumption. intros x y Hx. apply H12. now right.
  - apply Forall_app. split; [assumption|].
    apply Forall_forall. intros y Hy. apply H12; [now left | assumption].
Qed.

Hypothesis le_trans : forall x y z, le x y -> le y z -> le x z.

Lemma equal_to_pivot_sorted (p : A) (eq : list A) :
  Forall (fun x => le x p /\ le p x) eq -> StronglySorted le eq.
Proof.
  induction eq as [|e eq IH]; intros H; [constructor|].
  apply Forall_cons_iff in H as [[He _] H]. constructor; [now apply IH|].
  apply Forall_forall. intros y Hy. rewrite Forall_forall in H.
  apply (le_trans e p y He). now apply H.
Qed.

(** With a transitive comparator the quicksort returns, on enough fuel, a
    rearrangement in which every element is in order with all later ones. *)
Lemma quickSort3_sorted (fuel : nat) (l : list A) :
  (List.length l <= fuel)%nat -> Forall dom l ->
  exists r, quickSort3 cmp fuel l = Ok r
            /\ Permutation l r /\ StronglySorted le r.
Proof.
  revert l. induction fuel as [|fuel IH]; intros [|p rest] Hlen Hdom;
    try (exists []; repeat split; constructor).
  - cbn [List.length] in Hlen. lia.
  - apply Forall_cons_iff in Hdom as [Hp Hrest].
    destruct (partition3_spec p rest Hp Hrest)
      as (lt & eq & gt & E & Hperm & Hlt & Heq & Hgt).
    assert (Forall dom (lt ++ eq ++ gt)) as Hd
        by now apply (Permutation_Forall Hperm).
    apply Forall_app in Hd as [Hdlt Hd]. apply Forall_app in Hd as [_ Hdgt].
    assert (List.length rest = List.length lt + List.length eq + List.length gt)%nat
      as Hl by (rewrite (Permutation_length Hperm), !length_app; lia).
    cbn [List.length] in Hlen.
    destruct (IH lt) as (below & Eb & Pb & Sb); [lia | assumption|].
    destruct (IH gt) as (above & Ea & Pa & Sa); [lia | assumption|].
    cbn [quickSort3]. rewrite E. cbn [bind]. rewrite Eb. cbn [bind].
    rewrite Ea. cbn [bind].
    exists (below ++ p :: eq ++ above). split; [reflexivity|].
    rewrite Forall_forall in Hlt, Heq, Hgt.
    assert (forall y, In y (eq ++ above) -> le p y) as Hpy.
    { intros y Hy. apply in_app_or in Hy as [Hy | Hy].
      - now apply Heq.
      - apply Hgt. now apply (Permutation_in y (Permutation_sym Pa)). }
    split.
    + apply Permutation_cons_app.
      rewrite Hperm, Pb. apply Permutation_app_head.
      now apply Permutation_app_head.
    + apply StronglySorted_app; [assumption | |].
      * constructor; [|now apply Forall_forall].
        apply StronglySorted_app;
          [apply (equal_to_pivot_sorted p); now apply Forall_forall
          | assumption|].
        intros x y Hx Hy. apply (le_trans x p y); [now apply Heq|].
        apply Hgt. now apply (Permutation_in y (Permutation_sym Pa)).
      * intros x y Hx Hy.
        assert (le x p) as Hxp
            by (apply Hlt; now apply (Permutation_in x (Permutation_sym Pb))).
        destruct Hy as [<- | Hy]; [assumption|].
        apply (le_trans x p y Hxp). now apply Hpy.
Qed.

Lemma quickSort_sorted (data : list A) :
  Forall dom data ->
  exists r, quickSort cmp data = Ok r
            /\ Permutation data r /\ StronglySorted le r.
Proof. intros H. now apply quickSort3_sorted. Qed.

End ComparisonSortFacts.

Section SortedUnique.

Variable A : Type.
Variable R : A -> A -> Prop.

Hypothesis R_antisym : forall x y, R x y -> R y x -> x = y.

(** A sequence has at most one rearrangement sorted by an antisymmetric
    relation. *)
Lemma StronglySorted_unique (l1 l2 : list A) :
  Permutation l1 l2 -> StronglySorted R l1 -> StronglySorted R l2 -> l1 = l2.
Proof.
  revert l2. induction l1 as [|a l1 IH]; intros l2 Hp H1 H2.
  - now apply Permutation_nil in Hp.
  - destruct l2 as [|b l2];
      [apply Permutation_sym, Permutation_nil in Hp; discriminate|].
    apply StronglySorted_inv in H1 as [H1 Ha].
    apply StronglySorted_inv in H2 as [H2 Hb].
    rewrite Forall_forall in Ha, Hb.
    assert (a = b) as ->.
    { assert (In a (b :: l2)) as Hin
          by (apply (Permutation_in a Hp); now left).
      assert (In b (a :: l1)) as Hin'
          by (apply (Permutation_in b (Permutation_sym Hp)); now left).
      destruct Hin as [-> | Hin]; [reflexivity|].
      destruct Hin' as [-> | Hin']; [reflexivity|].
      apply R_antisym; [now apply Ha | now apply Hb]. }
    f_equal. apply IH; try assumption. now apply Permutation_cons_inv in Hp.
Qed.

Lemma adjacentPairs_Sorted (l : list A) : adjacentPairs R l -> Sorted R l.
Proof.
  induction l as [|a l IH]; intros H; constructor.
  - apply IH. intros l1 x y l2 E. apply (H (a :: l1) x y l2). now rewrite E.
  - destruct l as [|b l]; constructor. now apply (H [] a b l).
Qed.

End SortedUnique.

(** The comparator only returns on operands of the schema's type. *)
Lemma compareValues_Ok_typed (s : Schema) (a b : Value) (c : Z) :
  In (SType s) [TypeString; TypeBool; TypeInt; TypeFloat] ->
  compareValues s a b = Ok c ->
  hasType (SType s) a = true /\ hasType (SType s) b = true.
Proof.
  intros Ht. unfold compareValues. cbv zeta. cbn [In] in Ht.
  destruct Ht as [Ht | [Ht | [Ht | [Ht | []]]]]; rewrite <- Ht; clear Ht;
    cbn -[floatApproxEquals F64.ltb F64.gtb strings.Compare Z.ltb Z.gtb];
    destruct a; try discriminate; destruct b; try discriminate;
    intros _; split; reflexivity.
Qed.

(** On String, Bool and Int schemas the order of the comparator is
    transitive and antisymmetric. *)
Lemma inOrder_trans (s : Schema) (a b c : Value) :
  In (SType s) [TypeString; TypeBool; TypeInt] ->
  inOrder s a b -> inOrder s b c -> inOrder s a c.
Proof.
  intros Ht (c1 & H1 & Hc1) (c2 & H2 & Hc2). revert H1 H2.
  unfold inOrder, compareValues. cbv zeta.
  cbn [In] in Ht. destruct Ht as [Ht | [Ht | [Ht | []]]];
    rewrite <- Ht in *; clear Ht;
    cbn -[strings.Compare Z.ltb Z.gtb];
    destruct a as [ |x|x|x|x|x|x|x]; try discriminate;
    destruct b as [ |y|y|y|y|y|y|y]; try discriminate;
    destruct c as [ |z|z|z|z|z|z|z]; try discriminate;
    cbn -[strings.Compare Z.ltb Z.gtb].
  - intros [= <-] [= <-]. eexists. split; [reflexivity|].
    revert Hc1 Hc2. clear. revert y z.
    induction x as [|cx x IH]; intros [|cy y] [|cz z]; cbn [strings.Compare];
      try lia.
    destruct (N.compare_spec (N_of_ascii cx) (N_of_ascii cy));
      destruct (N.compare_spec (N_of_ascii cy) (N_of_ascii cz));
      destruct (N.compare_spec (N_of_ascii cx) (N_of_ascii cz));
      try lia.
    apply IH.
  - destruct x, y, z; cbn; intros [= <-] [= <-]; try lia;
      eexists; (split; [reflexivity | lia]).
  - rewrite !Z.gtb_ltb.
    destruct (Z.ltb_spec x y), (Z.ltb_spec y x), (Z.ltb_spec y z),
      (Z.ltb_spec z y), (Z.ltb_spec x z), (Z.ltb_spec z x);
      intros [= <-] [= <-]; try lia; eexists; (split; [reflexivity | lia]).
Qed.

Lemma inOrder_antisym (s : Schema) (a b : Value) :
  In (SType s) [TypeString; TypeBool; TypeInt] ->
  inOrder s a b -> inOrder s b a -> a = b.
Proof.
  intros Ht (c1 & H1 & Hc1) (c2 & H2 & Hc2). revert H1 H2.
  unfold compareValues. cbv zeta.
  cbn [In] in Ht. destruct Ht as [Ht | [Ht | [Ht | []]]];
    rewrite <- Ht in *; clear Ht;
    cbn -[strings.Compare Z.ltb Z.gtb];
    destruct a as [ |x|x|x|x|x|x|x]; try discriminate;
    destruct b as [ |y|y|y|y|y|y|y]; try discriminate;
    cbn -[strings.Compare Z.ltb Z.gtb].
  - intros [= <-] [= <-]. f_equal. apply StringsFacts.Compare_eq_iff.
    rewrite (StringsFacts.Compare_antisym x y) in Hc2. lia.
  - destruct x, y; cbn; intros [= <-] [= <-]; (reflexivity || lia).
  - rewrite !Z.gtb_ltb.
    destruct (Z.ltb_spec x y), (Z.ltb_spec y x);
      intros [= <-] [= <-]; try lia. f_equal. lia.
Qed.

(** C7. Sortedness.  For a schema of type String, Bool, Int or Float and a
    sequence of values of that type, insertion sort with [compareValues] as
    the comparator returns a rearrangement of the sequence in which every
    adjacent pair [(a, b)] has [compareValues(s, a, b) <= 0], and so has
    every rearrangement in which no element is [less] than its predecessor.
    For String, Bool and Int the sequence has one such rearrangement only,
    the one that insertion sort and quicksort both return.  (On Float, where
    the comparator is not transitive, quicksort can return another one, with
    an adjacent pair out of order.) *)
Theorem sort_by_compare_sorted (s : Schema) (data : list Value) :
  In (SType s) [TypeString; TypeBool; TypeInt; TypeFloat] ->
  forallb (hasType (SType s)) data = true ->
  (exists sorted,
      insertionSort (less s) data = Ok sorted
      /\ Permutation data sorted
      /\ adjacentPairs (inOrder s) sorted)
  /\ (forall l, Permutation data l ->
                adjacentPairs (noInversion s) l -> adjacentPairs (inOrder s) l)
  /\ (SType s <> TypeFloat ->
      exists sorted,
        insertionSort (less s) data = Ok sorted
        /\ quickSort (compareValues s) data = Ok sorted
        /\ adjacentPairs (inOrder s) sorted
        /\ (forall l, Permutation data l ->
                      adjacentPairs (noInversion s) l -> l = sorted)).
Proof.
  intros Ht Hd. rewrite forallb_forall in Hd.
  assert (exists sorted,
             insertionSort (less s) data = Ok sorted
             /\ Permutation data sorted
             /\ adjacentPairs (inOrder s) sorted) as Hins.
  { apply (insertionSort_sorted Value (less s)
             (fun v => hasType (SType s) v = true) (inOrder s)).
    - intros x y Hx Hy. now apply less_decides.
    - apply Forall_forall. exact Hd. }
  assert (forall l, Permutation data l ->
                    adjacentPairs (noInversion s) l ->
                    adjacentPairs (inOrder s) l) as Hany.
  { intros l Hp Hno l1 a b l2 E.
    assert (forall x, In x l -> hasType (SType s) x = true) as Hl
        by (intros x Hx; apply Hd;
            now apply (Permutation_in x (Permutation_sym Hp))).
    apply noInversion_inOrder; try assumption.
    - apply Hl. subst l. apply in_or_app. right. now left.
    - apply Hl. subst l. apply in_or_app. right. right. now left.
    - exact (Hno l1 a b l2 E). }
  split; [exact Hins | split; [exact Hany|]].
  intros Hnf.
  assert (In (SType s) [TypeString; TypeBool; TypeInt]) as Ht3.
  { cbn [In] in *. destruct Ht as [H | [H | [H | [H | []]]]];
      [tauto | tauto | tauto | now contradiction Hnf]. }
  assert (Relations_1.Transitive (inOrder s)) as Htr
      by (intros x y z; apply inOrder_trans; exact Ht3).
  destruct Hins as (sorted & Hs & Hp & Hadj).
  assert (StronglySorted (inOrder s) sorted) as Hss
      by (apply (Sorted_StronglySorted Htr); now apply adjacentPairs_Sorted).
  assert (forall l, Permutation data l -> StronglySorted (inOrder s) l ->
                    l = sorted) as Huniq.
  { intros l Hl Hsl.
    apply (StronglySorted_unique Value (inOrder s)
             (fun x y => inOrder_antisym s x y Ht3)); try assumption.
    now rewrite <- Hl. }
  exists sorted. split; [exact Hs|]. split; [|split; [exact Hadj|]].
  - destruct (quickSort_sorted Value (compareValues s)
                (fun v => hasType (SType s) v = true)) with (data := data)
      as (r & Hr & Hpr & Hsr).
    + intros x y Hx Hy.
      destruct (compareValues_antisym s x y Ht Hx Hy) as (c & H1 & H2 & _).
      now exists c.
    + intros x y z. apply inOrder_trans. exact Ht3.
    + apply Forall_forall. exact Hd.
    + rewrite Hr. f_equal. now apply Huniq.
  - intros l Hl Hno. apply Huniq; [assumption|].
    apply (Sorted_StronglySorted Htr). apply adjacentPairs_Sorted.
    now apply Hany.
Qed.

(* ================================================================= *)
(** ** The examples of the specification *)

Example match_string_default :
  valueMatches strings.EqualFoldASCII (scalar TypeString)
    (VString "Hello") (VString "hello") "" = Ok true.
Proof. reflexivity. Qed.

Example match_string_substring :
  valueMatches strings.EqualFoldASCII (scalar TypeString)
    (VString "Hello World") (VString "World") "substring" = Ok true.
Proof. reflexivity. Qed.

(** The pattern [^a], as the predicate it compiles to. *)
Example match_string_regex :
  valueMatches strings.EqualFoldASCII (scalar TypeString)
    (VString "abc") (VRegexp (mkRegexp (fun v => strings.HasPrefix v "a"))) "re"
  = Ok true.
Proof. reflexivity. Qed.

Example match_list_int :
  let s := mkSchema TypeList (ElemSchema (scalar TypeInt)) in
  valueMatches strings.EqualFoldASCII s (VList [VInt 1; VInt 2; VInt 3]) (VInt 2) ""
  = Ok true
  /\ valueMatches strings.EqualFoldASCII s (VList []) (VInt 2) "" = Ok false.
Proof. split; reflexivity. Qed.

Example compare_int :
  compareValues (scalar TypeInt) (VInt 3) (VInt 5) = Ok (-1)
  /\ compareValues (scalar TypeInt) (VInt 5) (VInt 3) = Ok 1
  /\ compareValues (scalar TypeInt) (VInt 5) (VInt 5) = Ok 0.
Proof. repeat split. Qed.

Example compare_bool :
  compareValues (scalar TypeBool) (VBool false) (VBool true) = Ok (-1).
Proof. reflexivity. Qed.

(** A NaN compares as equal to everything, so it splits the sequence: the
    result is sorted pair by pair only. *)
Example sort_floats_with_nan :
  insertionSort (less (scalar TypeFloat))
    [VFloat F64.one; VFloat F64.NaN; VFloat F64.zero; VFloat F64.nano;
     VFloat (F64.Inf true)]
  = Ok [VFloat F64.one; VFloat F64.NaN; VFloat (F64.Inf true); VFloat F64.zero;
        VFloat F64.nano].
Proof. reflexivity. Qed.

Example sort_strings :
  insertionSort (less (scalar TypeString))
    [VString "b"; VString "a"; VString "B"; VString ""]
  = Ok [VString ""; VString "B"; VString "a"; VString "b"].
Proof. reflexivity. Qed.

Example quicksort_strings :
  quickSort (compareValues (scalar TypeString))
    [VString "b"; VString "a"; VString "B"; VString ""; VString "a"]
  = Ok [VString ""; VString "B"; VString "a"; VString "a"; VString "b"].
Proof. reflexivity. Qed.

Example quicksort_ints :
  quickSort (compareValues (scalar TypeInt))
    [VInt 3; VInt (-1); VInt 2; VInt 3; VInt 0]
  = Ok [VInt (-1); VInt 0; VInt 2; VInt 3; VInt 3].
Proof. reflexivity. Qed.

(** A value of the wrong dynamic type makes the type assertion panic. *)
Example match_type_mismatch :
  valueMatches strings.EqualFoldASCII (scalar TypeInt) (VString "1") (VInt 1) ""
  = Panicked InterfaceConversion.
Proof. reflexivity. Qed.

(** The difference is rounded before it is compared with the tolerance:
    [0.000001 - 0x1p-1074] rounds back to [0.000001], which is not below the
    tolerance, although the exact difference is. *)
Remark approx_rounds_difference :
  F64.ltb F64.zero F64.tiny = true
  /\ F64.sub F64.epsilon F64.tiny = F64.epsilon
  /\ floatApproxEquals F64.epsilon F64.tiny = false.
Proof. repeat split; vm_compute; reflexivity. Qed.

(* ================================================================= *)
(** ** Instances on concrete inputs *)

Lemma zero_value_never_relational_witness :
  F64.eqb F64.zero F64.zero = true
  /\ In "greater_than"%string relationalModes
  /\ valueMatches strings.EqualFoldASCII (mkSchema TypeFloat ElemNil)
       (VFloat F64.zero) (VFloat F64.one) "greater_than" = Ok false.
Proof.
  assert (In "greater_than"%string relationalModes) as Hm by (simpl; tauto).
  split; [reflexivity | split; [exact Hm|]].
  exact (zero_value_never_relational strings.EqualFoldASCII ElemNil
           F64.zero F64.one "greater_than" eq_refl Hm).
Defined.

Lemma approx_equal_matches_and_compares_witness :
  let a := F64.one in
  let b := S754_finite false 4503599627370497 (-52) in
  F64.ltb (F64.abs (F64.sub a b)) F64.epsilon = true
  /\ valueMatches strings.EqualFoldASCII (mkSchema TypeFloat ElemNil)
       (VFloat a) (VFloat b) "" = Ok true
  /\ compareValues (mkSchema TypeFloat ElemNil) (VFloat a) (VFloat b) = Ok 0.
Proof.
  split; [reflexivity|].
  apply (approx_equal_matches_and_compares strings.EqualFoldASCII ElemNil).
  reflexivity.
Defined.

Lemma compare_unsupported_panics_witness :
  let s := mkSchema TypeList (ElemSchema (scalar TypeInt)) in
  ~ In (SType s) [TypeString; TypeBool; TypeInt; TypeFloat]
  /\ compareValues s (VList [VInt 1]) (VList []) = Panicked (Explicit unsupportedSort)
  /\ ~ returns (compareValues s (VList [VInt 1]) (VList [])).
Proof.
  assert (~ In TypeList [TypeString; TypeBool; TypeInt; TypeFloat]) as H
      by (simpl; intuition discriminate).
  split; [exact H|].
  exact (compare_unsupported_panics
           (mkSchema TypeList (ElemSchema (scalar TypeInt)))
           (VList [VInt 1]) (VList []) H).
Defined.

Lemma unsupported_mode_falls_back_witness :
  valueMatches strings.EqualFoldASCII (scalar TypeString)
    (VString "Hello") (VString "hello") "less_than" = Ok true
  /\ valueMatches strings.EqualFoldASCII (scalar TypeBool)
       (VBool true) (VBool false) "less_than" = Ok false
  /\ valueMatches strings.EqualFoldASCII (scalar TypeInt)
       (VInt 3) (VInt 3) "substring" = Ok true
  /\ valueMatches strings.EqualFoldASCII (scalar TypeFloat)
       (VFloat F64.one) (VFloat F64.one) "substring" = Ok true
  /\ valueMatches strings.EqualFoldASCII (scalar TypeMap)
       (VInt 3) (VString "x") "less_than" = Ok false.
Proof.
  destruct (unsupported_mode_falls_back strings.EqualFoldASCII ElemNil
              "less_than" TypeMap) as (Hs & Hb & _).
  destruct (unsupported_mode_falls_back strings.EqualFoldASCII ElemNil
              "substring" TypeMap) as (_ & _ & Hi & Hf & _).
  destruct (unsupported_mode_falls_back strings.EqualFoldASCII ElemNil
              "less_than" TypeMap) as (_ & _ & _ & _ & Hu).
  split; [|split; [|split; [|split]]].
  - apply (Hs "Hello" "hello")%string. simpl. intuition discriminate.
  - apply (Hb true false).
  - apply (Hi 3 3). simpl. intuition discriminate.
  - apply (Hf F64.one F64.one). simpl. intuition discriminate.
  - apply (Hu (VInt 3) (VString "x")). simpl. intuition discriminate.
Defined.

Lemma collection_matches_any_witness :
  let s := mkSchema TypeList (ElemSchema (scalar TypeInt)) in
  let l := [VInt 1; VInt 2; VInt 3] in
  let l' := [VInt 3; VInt 1; VInt 2] in
  (exists r, valueMatches strings.EqualFoldASCII s (VList l) (VInt 2) "" = Ok r
             /\ (r = true
                 <-> exists x, In x l
                               /\ valueMatches strings.EqualFoldASCII
                                    (scalar TypeInt) x (VInt 2) "" = Ok true))
  /\ valueMatches strings.EqualFoldASCII s (VList []) (VInt 2) "" = Ok false
  /\ (Permutation l l' ->
      valueMatches strings.EqualFoldASCII s (VList l') (VInt 2) ""
      = valueMatches strings.EqualFoldASCII s (VList l) (VInt 2) "").
Proof.
  apply (collection_matches_any strings.EqualFoldASCII TypeList (scalar TypeInt)
           [VInt 1; VInt 2; VInt 3] [VInt 3; VInt 1; VInt 2] (VInt 2) "").
  - left. reflexivity.
  - simpl. intros x [<- | [<- | [<- | []]]]; eexists; reflexivity.
Defined.

Lemma string_match_modes_witness :
  valueMatches strings.EqualFoldASCII (scalar TypeString)
    (VString "Hello World") (VString "hello world") "greater_than" = Ok true.
Proof.
  destruct (string_match_modes strings.EqualFoldASCII ElemNil
              "Hello World" "hello world" (mkRegexp (fun _ => true))
              "greater_than") as (_ & _ & H & _).
  apply H; discriminate.
Defined.

Lemma sort_by_compare_sorted_witness :
  let s := scalar TypeString in
  let data := [VString "b"; VString "a"; VString "B"; VString ""; VString "a"] in
  In (SType s) [TypeString; TypeBool; TypeInt; TypeFloat]
  /\ forallb (hasType (SType s)) data = true
  /\ (exists sorted,
        insertionSort (less s) data = Ok sorted
        /\ Permutation data sorted
        /\ adjacentPairs (inOrder s) sorted)
  /\ (forall l, Permutation data l ->
                adjacentPairs (noInversion s) l -> adjacentPairs (inOrder s) l)
  /\ (SType s <> TypeFloat ->
      exists sorted,
        insertionSort (less s) data = Ok sorted
        /\ quickSort (compareValues s) data = Ok sorted
        /\ adjacentPairs (inOrder s) sorted
        /\ (forall l, Permutation data l ->
                      adjacentPairs (noInversion s) l -> l = sorted)).
Proof.
  assert (In TypeString [TypeString; TypeBool; TypeInt; TypeFloat]) as H
      by (simpl; tauto).
  split; [exact H | split; [reflexivity|]].
  apply (sort_by_compare_sorted (scalar TypeString)); [exact H | reflexivity].
Defined.

(** C7. On floats the result of sorting depends on the algorithm: on the
    floats [e/2], [e], [0], with [e] the tolerance, both other elements
    compare as equal to the pivot [e/2], so that quicksort returns them as
    they are, and [e] then precedes [0], which compares below it. *)
Lemma quicksort_floats_out_of_order :
  let s := scalar TypeFloat in
  let data := [VFloat halfEpsilon; VFloat F64.epsilon; VFloat F64.zero] in
  forallb (hasType (SType s)) data = true
  /\ F64.valid halfEpsilon && F64.valid F64.epsilon && F64.valid F64.zero = true
  /\ quickSort (compareValues s) data = Ok data
  /\ compareValues s (VFloat F64.epsilon) (VFloat F64.zero) = Ok 1
  /\ ~ adjacentPairs (inOrder s) data.
Proof.
  cbv zeta. split; [reflexivity|]. split; [reflexivity|].
  split; [reflexivity|]. split; [reflexivity|].
  intros H.
  destruct (H [VFloat halfEpsilon] (VFloat F64.epsilon) (VFloat F64.zero) []
              eq_refl) as (c & Hc & Hle).
  assert (compareValues (scalar TypeFloat) (VFloat F64.epsilon) (VFloat F64.zero)
          = Ok 1) as E by reflexivity.
  rewrite E in Hc. injection Hc as <-. lia.
Qed.

Lemma compare_float_fallback_witness :
  let s := scalar TypeFloat in
  SType s = TypeFloat
  /\ (floatFallback F64.NaN F64.one = true ->
      compareValues s (VFloat F64.NaN) (VFloat F64.one) = Ok 0)
  /\ (floatFallback F64.NaN F64.one = true
      <-> F64.is_nan F64.NaN = true \/ F64.is_nan F64.one = true
          \/ F64.same_inf F64.NaN F64.one = true)
  /\ returns (compareValues s (VFloat F64.NaN) (VFloat F64.one))
  /\ (F64.is_nan F64.NaN = true \/ F64.is_nan F64.one = true ->
      compareValues s (VFloat F64.NaN) (VFloat F64.one) = Ok 0).
Proof.
  split; [reflexivity|].
  apply (compare_float_fallback (scalar TypeFloat) F64.NaN F64.one).
  reflexivity.
Defined.

Lemma nonzero_value_compared_normally_witness :
  F64.neqb F64.nano F64.zero = true
  /\ valueMatches strings.EqualFoldASCII (scalar TypeFloat)
       (VFloat F64.nano) (VFloat F64.one) "less_than"
     = Ok (F64.ltb F64.nano F64.one).
Proof.
  split; [reflexivity|].
  apply (nonzero_value_compared_normally strings.EqualFoldASCII ElemNil
           F64.nano F64.one).
  reflexivity.
Defined.

(** C8. The fallback is not confined to NaN operands: on two equal
    infinities none of the three tests of the float comparator succeeds, and
    neither operand is NaN. *)
Lemma fallback_reached_without_nan :
  let a := F64.Inf false in
  F64.valid a = true
  /\ floatApproxEquals a a = false
  /\ F64.ltb a a = false
  /\ F64.gtb a a = false
  /\ compareValues (scalar TypeFloat) (VFloat a) (VFloat a) = Ok 0
  /\ ~ (floatFallback a a = true
        <-> F64.is_nan a = true \/ F64.is_nan a = true).
Proof.
  repeat split.
  intros [H _]. destruct (H eq_refl); discriminate.
Qed.

(* ================================================================= *)
(** * Further properties of values.go *)

(** ** The comparator as an order *)

Module StringsOrder.

Import strings.

Lemma Compare_refl (a : string) : Compare a a = 0.
Proof.
  induction a as [|c a IH]; cbn [Compare]; [reflexivity|].
  now rewrite N.compare_refl.
Qed.

Lemma Compare_le_trans (a b c : string) :
  Compare a b <= 0 -> Compare b c <= 0 -> Compare a c <= 0.
Proof.
  revert b c. induction a as [|x a IH]; intros [|y b] [|z c]; cbn [Compare];
    try lia.
  destruct (N.compare_spec (N_of_ascii x) (N_of_ascii y)) as [Hxy|Hxy|Hxy];
    destruct (N.compare_spec (N_of_ascii y) (N_of_ascii z)) as [Hyz|Hyz|Hyz];
    destruct (N.compare_spec (N_of_ascii x) (N_of_ascii z)) as [Hxz|Hxz|Hxz];
    try lia.
  apply IH.
Qed.

Lemma append_nil_r (s : string) : (s ++ "")%string = s.
Proof. induction s as [|c s IH]; cbn [append]; [reflexivity | now rewrite IH]. Qed.

Lemma length_append (s t : string) :
  String.length (s ++ t) = (String.length s + String.length t)%nat.
Proof. induction s as [|c s IH]; cbn [append String.length]; [reflexivity | now rewrite IH]. Qed.

End StringsOrder.

(** X1. Swapping the operands of the comparator negates its result, which
    is [-1], [0] or [1], on every pair of operands of the schema's scalar
    type. *)
Theorem compare_swap_negates (s : Schema) (a b : Value) :
  In (SType s) [TypeString; TypeBool; TypeInt; TypeFloat] ->
  hasType (SType s) a = true -> hasType (SType s) b = true ->
  exists c, compareValues s a b = Ok c
            /\ compareValues s b a = Ok (- c)
            /\ (c = -1 \/ c = 0 \/ c = 1).
Proof.
  intros Ht Ha Hb.
  destruct (compareValues_antisym s a b Ht Ha Hb) as (c & Hab & Hba & Hc).
  exists c. repeat split; try assumption. lia.
Qed.

(** X2. Every operand of the schema's scalar type compares as equal to
    itself, a NaN and the infinities included. *)
Theorem compare_self_zero (s : Schema) (a : Value) :
  In (SType s) [TypeString; TypeBool; TypeInt; TypeFloat] ->
  hasType (SType s) a = true ->
  compareValues s a a = Ok 0.
Proof.
  intros Ht Ha.
  destruct (compareValues_antisym s a a Ht Ha Ha) as (c & Hab & Hba & _).
  rewrite Hab in Hba. injection Hba as Hc. rewrite Hab. f_equal. lia.
Qed.

(** X3. On String, Bool and Int schemas the comparator returns 0 exactly on
    equal operands. *)
Theorem compare_zero_iff_equal (s : Schema) (a b : Value) :
  In (SType s) [TypeString; TypeBool; TypeInt] ->
  hasType (SType s) a = true -> hasType (SType s) b = true ->
  compareValues s a b = Ok 0 <-> a = b.
Proof.
  intros Ht Ha Hb. unfold compareValues. cbv zeta.
  cbn [In] in Ht. destruct Ht as [Ht | [Ht | [Ht | []]]];
    rewrite <- Ht in *; clear Ht;
    destruct a as [ |x|x|x|x|x|x|x]; try discriminate Ha;
    destruct b as [ |y|y|y|y|y|y|y]; try discriminate Hb;
    cbn -[strings.Compare Z.ltb Z.gtb].
  - split.
    + intros [= H]. apply StringsFacts.Compare_eq_iff in H. now subst.
    + intros [= ->]. now rewrite StringsOrder.Compare_refl.
  - destruct x, y; cbn; split; intros H; (discriminate H || reflexivity).
  - rewrite Z.gtb_ltb.
    destruct (Z.ltb_spec x y) as [L1|L1], (Z.ltb_spec y x) as [L2|L2];
      (split; [intros E; try discriminate E | intros [= ->]; try lia]);
      try reflexivity.
    f_equal. lia.
Qed.

(** X4. On String, Bool and Int schemas the order decided by the comparator
    is transitive. *)
Theorem compare_transitive (s : Schema) (a b c : Value) :
  In (SType s) [TypeString; TypeBool; TypeInt] ->
  inOrder s a b -> inOrder s b c -> inOrder s a c.
Proof.
  intros Ht (c1 & H1 & Hc1) (c2 & H2 & Hc2). revert H1 H2.
  unfold inOrder, compareValues. cbv zeta.
  cbn [In] in Ht. destruct Ht as [Ht | [Ht | [Ht | []]]];
    rewrite <- Ht in *; clear Ht;
    cbn -[strings.Compare Z.ltb Z.gtb];
    destruct a as [ |x|x|x|x|x|x|x]; try discriminate;
    destruct b as [ |y|y|y|y|y|y|y]; try discriminate;
    destruct c as [ |z|z|z|z|z|z|z]; try discriminate;
    cbn -[strings.Compare Z.ltb Z.gtb].
  - intros [= <-] [= <-]. eexists. split; [reflexivity|].
    now apply (StringsOrder.Compare_le_trans x y z).
  - destruct x, y, z; cbn; intros [= <-] [= <-]; try lia;
      eexists; (split; [reflexivity | lia]).
  - rewrite !Z.gtb_ltb.
    destruct (Z.ltb_spec x y), (Z.ltb_spec y x), (Z.ltb_spec y z),
      (Z.ltb_spec z y), (Z.ltb_spec x z), (Z.ltb_spec z x);
      intros [= <-] [= <-]; try lia; eexists; (split; [reflexivity | lia]).
Qed.

(** X5. On a Float schema the comparator is not transitive: there are
    floats [a], [b], [c] (zero, half the tolerance and the tolerance) such
    that [a] and [b] compare as equal, [b] and [c] compare as equal, and [a]
    compares below [c]. *)
Theorem compare_float_not_transitive (el : SchemaElem) :
  let s := mkSchema TypeFloat el in
  exists a b c : float64,
    (F64.valid a && F64.valid b && F64.valid c = true)
    /\ compareValues s (VFloat a) (VFloat b) = Ok 0
    /\ compareValues s (VFloat b) (VFloat c) = Ok 0
    /\ compareValues s (VFloat a) (VFloat c) = Ok (-1).
Proof.
  exists F64.zero, halfEpsilon, F64.epsilon. repeat split.
Qed.

(** ** Panics of the matcher and of the comparator *)

Lemma rangeOr_panics (f : Value -> result bool) (l : list Value) (acc : bool)
    (x : Value) (p : Panic) :
  In x l -> f x = Panicked p -> exists p', rangeOr f l acc = Panicked p'.
Proof.
  revert acc. induction l as [|y l IH]; intros acc Hin Hx; [destruct Hin|].
  cbn [rangeOr]. destruct (f y) as [b|q] eqn:Hy; cbn [bind].
  - destruct Hin as [-> | Hin]; [congruence | now apply IH].
  - now exists q.
Qed.

Lemma rangeOr_panic_kind (f : Value -> result bool) (l : list Value)
    (acc : bool) (p : Panic) :
  (forall x q, In x l -> f x = Panicked q -> q = InterfaceConversion) ->
  rangeOr f l acc = Panicked p -> p = InterfaceConversion.
Proof.
  revert acc. induction l as [|y l IH]; intros acc H; cbn [rangeOr];
    [discriminate|].
  destruct (f y) as [b|q] eqn:Hy; cbn [bind].
  - apply IH. intros x q Hx. apply H. now right.
  - intros [= <-]. apply (H y q); [now left | exact Hy].
Qed.

Section Panics.

Variable EqualFold : string -> string -> bool.

(** X6. For each of the six type tags the matcher handles, a value of
    another dynamic type than the tag asserts makes the matcher panic on the
    type assertion, whatever the filter and the mode. *)
Theorem ill_typed_value_panics (t : ValueType) (e : SchemaElem)
    (v f : Value) (m : string) :
  In t [TypeString; TypeBool; TypeInt; TypeFloat; TypeList; TypeSet] ->
  hasShape t v = false ->
  valueMatches EqualFold (mkSchema t e) v f m = Panicked InterfaceConversion.
Proof.
  intros Ht Hv. cbn [In] in Ht.
  destruct Ht as [<- | [<- | [<- | [<- | [<- | [<- | []]]]]]];
    destruct v; try discriminate Hv; cbn;
    repeat match goal with |- context [String.eqb m ?l] =>
      destruct (String.eqb m l) end;
    try reflexivity; destruct f; reflexivity.
Qed.

(** A panic of the matcher comes from one of its type assertions. *)
Lemma valueMatches_panic_kind :
  forall (s : Schema) (v f : Value) (m : string) (p : Panic),
    valueMatches EqualFold s v f m = Panicked p -> p = InterfaceConversion.
Proof.
  fix IH 1. intros [t e] v f m p.
  cbn [valueMatches].
  destruct (t =? TypeString).
  { destruct (m =? "substring")%string; [|destruct (m =? "re")%string];
      destruct v, f; cbn; intros H; congruence. }
  destruct (t =? TypeBool).
  { destruct v, f; cbn; intros H; congruence. }
  destruct (t =? TypeInt).
  { destruct v, f; cbn -[Z.ltb Z.leb Z.gtb Z.geb Z.eqb];
      repeat match goal with |- context [String.eqb m ?l] =>
        destruct (String.eqb m l) end; intros H; congruence. }
  destruct (t =? TypeFloat).
  { destruct v, f; cbn -[floatApproxEquals F64.ltb F64.gtb F64.neqb];
      repeat match goal with |- context [String.eqb m ?l] =>
        destruct (String.eqb m l) end; intros H; congruence. }
  destruct (t =? TypeList).
  { destruct v; cbn [bind assertSlice]; try (intros H; congruence).
    apply rangeOr_panic_kind. intros x q _.
    destruct e as [|es|]; [congruence | apply IH | congruence]. }
  destruct (t =? TypeSet).
  { destruct v; cbn [bind assertSet]; try (intros H; congruence).
    apply rangeOr_panic_kind. intros x q _.
    destruct e as [|es|]; [congruence | apply IH | congruence]. }
  discriminate.
Qed.

(** X9. The loop over a collection does not stop at the first match: when
    any element makes the matcher panic, so does the whole collection,
    whatever the other elements are. *)
Theorem collection_panics_with_element (t : ValueType) (es : Schema)
    (l : list Value) (x f : Value) (m : string) (p : Panic) :
  t = TypeList \/ t = TypeSet ->
  In x l ->
  valueMatches EqualFold es x f m = Panicked p ->
  valueMatches EqualFold (mkSchema t (ElemSchema es)) (collection t l) f m
  = Panicked InterfaceConversion.
Proof.
  intros Ht Hin Hx.
  destruct (rangeOr_panics (fun y => valueMatches EqualFold es y f m) l false x p
              Hin Hx) as [p' Hp'].
  rewrite valueMatches_collection by assumption. rewrite Hp'. f_equal.
  apply (rangeOr_panic_kind _ _ _ _ (fun y q _ H =>
           valueMatches_panic_kind es y f m q H) Hp').
Qed.

(** X10. The element schema is only looked at when there is an element:
    an empty collection gives false whatever [Elem] holds, and a non-empty
    one panics when [Elem] is not a schema. *)
Theorem collection_elem_used_per_element (t : ValueType) (e : SchemaElem)
    (l : list Value) (f : Value) (m : string) :
  t = TypeList \/ t = TypeSet ->
  valueMatches EqualFold (mkSchema t e) (collection t []) f m = Ok false
  /\ (isElemSchema e = false -> l <> [] ->
      valueMatches EqualFold (mkSchema t e) (collection t l) f m
      = Panicked InterfaceConversion).
Proof.
  intros [-> | ->]; (split; [reflexivity|]); intros He Hl;
    (destruct l as [|x l]; [contradiction|]);
    destruct e; try discriminate He; reflexivity.
Qed.

End Panics.

(** X8. A wrong operand type makes the comparator panic on the type
    assertion: on a String, Bool, Int or Float schema, when either operand
    is not of the schema's type. *)
Theorem compare_ill_typed_panics (s : Schema) (a b : Value) :
  In (SType s) [TypeString; TypeBool; TypeInt; TypeFloat] ->
  hasType (SType s) a = false \/ hasType (SType s) b = false ->
  compareValues s a b = Panicked InterfaceConversion.
Proof.
  intros Ht H. unfold compareValues. cbv zeta. cbn [In] in Ht.
  destruct Ht as [Ht | [Ht | [Ht | [Ht | []]]]]; rewrite <- Ht in *; clear Ht;
    cbn -[floatApproxEquals F64.ltb F64.gtb strings.Compare Z.ltb Z.gtb];
    destruct a; try reflexivity; destruct b; try reflexivity;
    destruct H as [H | H]; discriminate H.
Qed.

(** ** Modes of the matcher *)

Section Modes.

Variable EqualFold : string -> string -> bool.

(** X11. On payloads of the types the schema and the mode call for (values
    of the schema's type, collections of values of the element schema, a
    compiled pattern as filter in mode ["re"] on strings), no type assertion
    fails and the matcher returns. *)
Theorem typed_payloads_match_returns (s : Schema) (v f : Value) (m : string) :
  wellTyped s v = true -> filterTyped s f m = true ->
  returns (valueMatches EqualFold s v f m).
Proof. apply valueMatches_returns. Qed.

(** X12. On an Int schema the modes of the matcher agree with the sign of
    the comparator: ["less_than"] is [-1], ["greater_than"] is [1], the
    default is [0], and the two ["..._or_equal"] modes are [<= 0] and
    [>= 0]. *)
Theorem int_modes_agree_with_compare (e : SchemaElem) (v f : Z) :
  let s := mkSchema TypeInt e in
  exists c,
    compareValues s (VInt v) (VInt f) = Ok c
    /\ valueMatches EqualFold s (VInt v) (VInt f) "less_than" = Ok (c =? -1)
    /\ valueMatches EqualFold s (VInt v) (VInt f) "less_than_or_equal"
       = Ok (c <=? 0)
    /\ valueMatches EqualFold s (VInt v) (VInt f) "greater_than" = Ok (c =? 1)
    /\ valueMatches EqualFold s (VInt v) (VInt f) "greater_than_or_equal"
       = Ok (0 <=? c)
    /\ valueMatches EqualFold s (VInt v) (VInt f) "" = Ok (c =? 0).
Proof.
  intros s. subst s. rewrite !valueMatches_int.
  unfold compareValues. cbn -[Z.ltb Z.leb Z.gtb Z.geb Z.eqb].
  rewrite Z.gtb_ltb, Z.geb_leb.
  destruct (Z.ltb_spec v f) as [L1|L1], (Z.ltb_spec f v) as [L2|L2];
    try lia; eexists; (split; [reflexivity|]); cbn -[Z.ltb Z.leb Z.eqb];
    repeat split; f_equal;
    repeat match goal with
           | |- context [Z.leb ?x ?y] => destruct (Z.leb_spec x y)
           | |- context [Z.eqb ?x ?y] => destruct (Z.eqb_spec x y)
           end; try reflexivity; lia.
Qed.

(** X13. On a Float schema, with both operands different from zero,
    ["less_than"] of a value against a filter is ["greater_than"] of the
    filter against the value, likewise for the ["..._or_equal"] modes; the
    default mode is symmetric for all operands, zero or not. *)
Theorem float_modes_dual (e : SchemaElem) (a b : float64) :
  let s := mkSchema TypeFloat e in
  (F64.neqb a F64.zero = true -> F64.neqb b F64.zero = true ->
   valueMatches EqualFold s (VFloat a) (VFloat b) "less_than"
   = valueMatches EqualFold s (VFloat b) (VFloat a) "greater_than"
   /\ valueMatches EqualFold s (VFloat a) (VFloat b) "less_than_or_equal"
      = valueMatches EqualFold s (VFloat b) (VFloat a) "greater_than_or_equal")
  /\ valueMatches EqualFold s (VFloat a) (VFloat b) ""
     = valueMatches EqualFold s (VFloat b) (VFloat a) "".
Proof.
  intros s. subst s. rewrite !valueMatches_float.
  cbn [String.eqb Ascii.eqb Bool.eqb].
  rewrite F64Facts.gtb_ltb, (ApproxFacts.floatApproxEquals_sym b a).
  split; [|reflexivity].
  intros Ha Hb. rewrite Ha, Hb. split; reflexivity.
Qed.

(** X14. In the default mode a float matches itself exactly when it is
    neither a NaN nor an infinity. *)
Theorem float_matches_itself_iff_finite (e : SchemaElem) (a : float64) :
  valueMatches EqualFold (mkSchema TypeFloat e) (VFloat a) (VFloat a) ""
  = Ok (negb (F64.is_nan a) && negb (is_inf a)).
Proof.
  rewrite valueMatches_float. cbn [String.eqb]. f_equal.
  destruct a as [sa|sa| |sa ma ea]; cbn [F64.is_nan is_inf negb andb].
  - destruct sa; reflexivity.
  - destruct sa; reflexivity.
  - reflexivity.
  - unfold floatApproxEquals. now rewrite ApproxFacts.sub_diag_finite.
Qed.

(** X15. In mode ["substring"] the empty filter matches every string,
    every string matches itself, and a filter longer than the value never
    matches. *)
Theorem substring_edge_cases (e : SchemaElem) (v f : string) :
  let s := mkSchema TypeString e in
  valueMatches EqualFold s (VString v) (VString "") "substring" = Ok true
  /\ valueMatches EqualFold s (VString v) (VString v) "substring" = Ok true
  /\ ((String.length v < String.length f)%nat ->
      valueMatches EqualFold s (VString v) (VString f) "substring" = Ok false).
Proof.
  intros s. subst s. rewrite !valueMatches_string. cbn [String.eqb Ascii.eqb Bool.eqb bind assertString].
  repeat split.
  - f_equal. apply StringsFacts.Contains_iff. now exists EmptyString, v.
  - f_equal. apply StringsFacts.Contains_iff. exists EmptyString, EmptyString.
    cbn [append]. now rewrite StringsOrder.append_nil_r.
  - intros Hlen. f_equal. destruct (strings.Contains v f) eqn:Hc; [|reflexivity].
    apply StringsFacts.Contains_iff in Hc as (pre & suf & ->).
    rewrite !StringsOrder.length_append in Hlen. lia.
Qed.

End Modes.

(* ================================================================= *)
(** * Properties of config.go *)

(** ** The redirects pattern *)

Module RedirectsFacts.

Import equinix.

Local Open Scope string_scope.

Lemma append_assoc (a b c : string) : (a ++ b) ++ c = a ++ b ++ c.
Proof. induction a as [|x a IH]; cbn [append]; [reflexivity | now rewrite IH]. Qed.

Lemma dropPrefix_Some_iff (prefix s r : string) :
  dropPrefix prefix s = Some r <-> s = prefix ++ r.
Proof.
  revert s. induction prefix as [|c prefix IH]; intros s; cbn [dropPrefix append].
  - split; [now intros [= ->] | now intros ->].
  - destruct s as [|d s]; [split; discriminate|].
    destruct (Ascii.eqb_spec c d) as [->|Hn].
    + rewrite IH. split; [now intros -> | now intros [= ->]].
    + split; [discriminate | intros [= -> _]; contradiction].
Qed.

Lemma skipDigits_split (s : string) :
  exists ds, allDigits ds = true /\ s = ds ++ skipDigits s.
Proof.
  induction s as [|c s (ds & Hds & IH)].
  - now exists "".
  - cbn [skipDigits]. destruct (isDigit c) eqn:Hc.
    + exists (String c ds). cbn [allDigits append]. rewrite Hc, Hds.
      split; [reflexivity | now rewrite <- IH].
    + now exists "".
Qed.

Lemma skipDigits_app (ds r : string) :
  allDigits ds = true -> skipDigits r = r -> skipDigits (ds ++ r) = r.
Proof.
  intros Hds Hr. induction ds as [|c ds IH]; cbn [append]; [exact Hr|].
  cbn [allDigits] in Hds. apply andb_true_iff in Hds as [Hc Hds].
  cbn [skipDigits]. rewrite Hc. now apply IH.
Qed.

Lemma redirectsHere_iff (s : string) :
  redirectsHere s = true
  <-> exists ds, ds <> "" /\ allDigits ds = true /\ s = redirectsText ds.
Proof.
  unfold redirectsHere, redirectsText. split.
  - destruct (dropPrefix "stopped after " s) as [[|c r]|] eqn:Hd; try discriminate.
    apply dropPrefix_Some_iff in Hd. intros H.
    apply andb_true_iff in H as [Hc Hr]. apply String.eqb_eq in Hr.
    destruct (skipDigits_split r) as (ds & Hds & Er). rewrite Hr in Er.
    exists (String c ds). cbn [allDigits]. rewrite Hc, Hds.
    repeat split; [discriminate | now rewrite Hd, Er].
  - intros (ds & Hne & Hds & ->). destruct ds as [|c ds]; [contradiction|].
    cbn [allDigits] in Hds. apply andb_true_iff in Hds as [Hc Hds].
    assert (dropPrefix "stopped after "
              ("stopped after " ++ String c ds ++ " redirects")
            = Some (String c (ds ++ " redirects"))) as ->
        by now apply dropPrefix_Some_iff.
    rewrite Hc, (skipDigits_app ds " redirects" Hds eq_refl). reflexivity.
Qed.

(** [redirectsMatch] is the unanchored search for the pattern ending at
    the end of the text. *)
Lemma redirectsMatch_iff (s : string) :
  redirectsMatch s = true
  <-> exists pre ds,
      ds <> "" /\ allDigits ds = true /\ s = pre ++ redirectsText ds.
Proof.
  split.
  - induction s as [|c s IH]; cbn [redirectsMatch]; rewrite orb_true_iff.
    + intros [H | H]; [|discriminate H].
      apply redirectsHere_iff in H as (ds & ? & ? & ?). now exists "", ds.
    + intros [H | H].
      * apply redirectsHere_iff in H as (ds & ? & ? & ?). now exists "", ds.
      * destruct (IH H) as (pre & ds & ? & ? & ->).
        now exists (String c pre), ds.
  - intros (pre & ds & Hne & Hds & ->). induction pre as [|c pre IH].
    + cbn [append].
      assert (redirectsHere (redirectsText ds) = true) as H
          by (apply redirectsHere_iff; now exists ds).
      destruct (redirectsText ds); cbn [redirectsMatch]; now rewrite H.
    + cbn [append redirectsMatch]. rewrite IH. apply orb_true_r.
Qed.

Lemma without_append (c : ascii) (a b : string) :
  without c (a ++ b) = without c a && without c b.
Proof.
  induction a as [|x a IH]; cbn [append without]; [reflexivity|].
  now rewrite IH, andb_assoc.
Qed.

Lemma without_digits (ds : string) :
  allDigits ds = true -> without ":" ds = true.
Proof.
  induction ds as [|c ds IH]; cbn [allDigits without]; [reflexivity|].
  intros H. apply andb_true_iff in H as [Hc Hds]. rewrite (IH Hds), andb_true_r.
  destruct (Ascii.eqb_spec ":" c) as [<-|]; [discriminate Hc | reflexivity].
Qed.

Lemma without_redirectsText (ds : string) :
  allDigits ds = true -> without ":" (redirectsText ds) = true.
Proof.
  intros H. unfold redirectsText.
  now rewrite !without_append, (without_digits ds H).
Qed.

(** A text without the byte [c] that ends a string ends what follows any
    [c] in it. *)
Lemma suffix_after_byte (c : ascii) (pat : string) :
  without c pat = true ->
  forall hdr pre rest,
    pre ++ pat = hdr ++ String c rest -> exists pre', rest = pre' ++ pat.
Proof.
  intros Hpat. induction hdr as [|h hdr IH]; intros pre rest E.
  - destruct pre as [|p pre]; cbn [append] in E.
    + rewrite E in Hpat. cbn [without] in Hpat.
      rewrite Ascii.eqb_refl in Hpat. discriminate.
    + injection E as _ E. now exists pre.
  - destruct pre as [|p pre]; cbn [append] in E.
    + rewrite E in Hpat. cbn [without] in Hpat.
      rewrite without_append in Hpat. cbn [without] in Hpat.
      apply andb_true_iff in Hpat as [_ Hpat].
      apply andb_true_iff in Hpat as [_ Hpat].
      rewrite Ascii.eqb_refl in Hpat. discriminate.
    + injection E as _ E. now apply (IH pre).
Qed.

(** What precedes the separator [": "] of a message plays no part in the
    match. *)
Lemma redirectsMatch_after_separator (hdr msg : string) :
  redirectsMatch (hdr ++ ": " ++ msg) = redirectsMatch msg.
Proof.
  apply eq_true_iff_eq. rewrite !redirectsMatch_iff. split.
  - intros (pre & ds & Hne & Hds & E).
    destruct (suffix_after_byte ":" (redirectsText ds)
                (without_redirectsText ds Hds) hdr pre (" " ++ msg)
                (eq_sym E))
      as [pre' E'].
    destruct pre' as [|p pre']; cbn [append] in E'.
    + discriminate E'.
    + injection E' as _ E'. now exists pre', ds.
  - intros (pre & ds & Hne & Hds & ->).
    exists (hdr ++ ": " ++ pre), ds. repeat split; try assumption.
    now rewrite !append_assoc.
Qed.

End RedirectsFacts.

(** ** The retry policy *)

Section RetryPolicy.

Import equinix.

Local Open Scope string_scope.

Variable Quote : string -> string.
Variable Response : Type.

(** X16. A [*url.Error] that wraps the "stopped after N redirects" error
    of the HTTP client is not retried, whatever the count, the operation
    and the URL are. *)
Theorem redirects_error_not_retried (resp : option Response)
    (Op URL ds : string) :
  ds <> "" -> allDigits ds = true ->
  MetalRetryPolicy Quote None resp
    (Some (URLError Op URL (errorString (redirectsText ds))))
  = (false, None).
Proof.
  intros Hne Hds. cbn [MetalRetryPolicy MatchString redirectsErrorRe Error].
  assert (redirectsMatch (Op ++ " " ++ Quote URL ++ ": " ++ redirectsText ds)
          = true) as ->; [|reflexivity].
  apply RedirectsFacts.redirectsMatch_iff.
  exists (Op ++ " " ++ Quote URL ++ ": "), ds. repeat split; try assumption.
  now rewrite !RedirectsFacts.append_assoc.
Qed.

(** X17. Whether the message of a [*url.Error] matches the redirects
    pattern is decided by the message of the error it wraps: the operation
    and the URL can neither produce a match nor prevent one. *)
Theorem redirects_match_ignores_op_and_url (Op URL : string) (Err : error) :
  MatchString redirectsErrorRe (Error Quote (URLError Op URL Err))
  = MatchString redirectsErrorRe (Error Quote Err).
Proof.
  cbn [MatchString redirectsErrorRe Error].
  rewrite <- (RedirectsFacts.redirectsMatch_after_separator
                (Op ++ " " ++ Quote URL) (Error Quote Err)).
  now rewrite !RedirectsFacts.append_assoc.
Qed.

(** X18. The policy returns the error of the context and no other; it
    does not retry once the context is done, nor a call that returned no
    error; and an error that is not a [*url.Error] is retried while the
    context is live. *)
Theorem retry_policy_context_and_errors (ctxErr : option error)
    (resp : option Response) (err : option error) :
  snd (MetalRetryPolicy Quote ctxErr resp err) = ctxErr
  /\ (ctxErr <> None -> fst (MetalRetryPolicy Quote ctxErr resp err) = false)
  /\ (err = None -> fst (MetalRetryPolicy Quote ctxErr resp err) = false)
  /\ (forall msg, ctxErr = None ->
        err = Some (errorString msg) \/ err = Some (UnknownAuthorityError msg) ->
        fst (MetalRetryPolicy Quote ctxErr resp err) = true).
Proof.
  unfold MetalRetryPolicy. repeat split.
  - destruct ctxErr; [reflexivity|].
    destruct err as [[ | |Op URL Err]|]; try reflexivity.
    destruct (MatchString _ _); [reflexivity|]. destruct Err; reflexivity.
  - intros H. destruct ctxErr; [reflexivity | contradiction].
  - intros ->. destruct ctxErr; reflexivity.
  - intros msg -> [-> | ->]; reflexivity.
Qed.

End RetryPolicy.

(** ** User agents *)

Section UserAgents.

Import equinix.

Local Open Scope string_scope.

Variable Getenv : string -> string.
Variable TrimSpace : string -> string.
Variable SDKVersionString : string.
Variable ProviderVersion : string.

(** X19. Whatever [TF_APPEND_USER_AGENT] holds, the Terraform user agent
    starts with the standard product string; what follows is nothing, or a
    space and the non-empty trimmed value of the variable.  It is nothing
    when the variable is unset or empty. *)
Theorem terraform_user_agent_prefix (version : string) :
  let ua := terraformUserAgent Getenv TrimSpace SDKVersionString version in
  let base := baseTerraformUserAgent SDKVersionString version in
  (ua = base
   \/ (ua = base ++ " " ++ TrimSpace (Getenv uaEnvVar)
       /\ TrimSpace (Getenv uaEnvVar) <> ""))
  /\ (Getenv uaEnvVar = "" -> ua = base).
Proof.
  cbv zeta. unfold terraformUserAgent. cbv zeta. split.
  - destruct (Getenv uaEnvVar =? ""); cbn [negb]; [now left|].
    destruct (TrimSpace (Getenv uaEnvVar)) as [|c r] eqn:E; cbn; [now left|].
    right. split; [reflexivity | discriminate].
  - intros ->. reflexivity.
Qed.

(** The user agent of a module is the base user agent, preceded by
    the module name and a space when provider metadata is available and
    names a module: the base user agent is always its end. *)
Lemma module_user_agent_keeps_base (d : ProviderMeta) (baseUserAgent : string) :
  exists pre,
    generateModuleUserAgentString d baseUserAgent = pre ++ baseUserAgent
    /\ (pre = ""
        \/ exists name, d = MetaOk name /\ name <> "" /\ pre = name ++ " ").
Proof.
  destruct d as [|name]; cbn [generateModuleUserAgentString].
  - exists "". split; [reflexivity | now left].
  - destruct (String.eqb_spec name "") as [->|Hn]; cbn [negb].
    + exists "". split; [reflexivity | now left].
    + exists (name ++ " "). split.
      * cbn [strings_Join]. now rewrite RedirectsFacts.append_assoc.
      * right. now exists name.
Qed.

End UserAgents.

(** ** Load *)

Section LoadFacts.

Import equinix.

Local Open Scope string_scope.

Variable Getenv : string -> string.
Variable TrimSpace : string -> string.
Variable SDKVersionString : string.
Variable ProviderVersion : string.

Lemma requestTimeout_nonzero (c : Config) : requestTimeout c <> 0%Z.
Proof.
  unfold requestTimeout. destruct (Z.eqb_spec (RequestTimeout c) 0);
    [discriminate | assumption].
Qed.

Section WithTokenEndpoint.

Variable requestToken : string -> string -> string -> option string * option error.

Let load := Load Getenv TrimSpace SDKVersionString ProviderVersion requestToken.

(** X20. When [Load] returns an error it has not changed the
    configuration. *)
Theorem load_error_keeps_config (c : Config) (e : error) :
  fst (load c) = Some e -> snd (load c) = c.
Proof.
  subst load. unfold Load.
  destruct (BaseURL c =? ""); [reflexivity|].
  destruct ((Token c =? "") && ((ClientID c =? "") || (ClientSecret c =? ""))
            && (AuthToken c =? "")); [reflexivity|].
  destruct (negb (Token c =? "")); [cbn; discriminate|].
  destruct (negb (ClientID c =? "") && negb (ClientSecret c =? ""));
    [|cbn; discriminate].
  destruct (requestToken _ _ _) as [tke [err|]]; [reflexivity|].
  destruct tke; cbn; discriminate.
Qed.

(** X21. [Load] fails in three cases and no other: the base URL is
    empty; there is no token, no Metal token and no complete pair of client
    id and secret; or, without a token and with the pair, the token request
    returns an error. *)
Theorem load_fails_iff (c : Config) :
  fst (load c) <> None
  <-> BaseURL c = ""
      \/ (Token c = "" /\ AuthToken c = ""
          /\ (ClientID c = "" \/ ClientSecret c = ""))
      \/ (Token c = "" /\ ClientID c <> "" /\ ClientSecret c <> ""
          /\ snd (requestToken (ClientID c) (ClientSecret c) (BaseURL c))
             <> None).
Proof.
  subst load. unfold Load.
  destruct (String.eqb_spec (BaseURL c) "") as [Hb|Hb];
    [cbn; split; [now left | discriminate]|].
  destruct (String.eqb_spec (Token c) "") as [Ht|Ht];
    destruct (String.eqb_spec (ClientID c) "") as [Hi|Hi];
    destruct (String.eqb_spec (ClientSecret c) "") as [Hs|Hs];
    destruct (String.eqb_spec (AuthToken c) "") as [Ha|Ha];
    cbn [andb orb negb];
    try (cbn; split; [intros _ | discriminate]; right; left; tauto);
    try (cbn; split; [intros H; now contradiction H | tauto]).
  all: destruct (requestToken _ _ _) as [tke [err|]]; cbn [snd];
    [cbn; split; [intros _ | discriminate]; right; right;
     repeat split; try assumption; discriminate
    | destruct tke; cbn; (split; [intros H; now contradiction H | ]);
      intros [H | [H | H]]; tauto].
Qed.

(** X23. After a successful [Load] the base URL is not empty and the
    credentials are as they were; the client stored uses that base URL, a
    timeout that is not zero, a page size only when [PageSize] is positive,
    and the user agent recorded for it, which is also the one recorded for
    ECX; and the Fabric token is not empty when a token was configured. *)
Theorem load_success_postcondition (c : Config) :
  fst (load c) = None ->
  let c' := snd (load c) in
  BaseURL c <> ""
  /\ (BaseURL c' = BaseURL c /\ Token c' = Token c /\ AuthToken c' = AuthToken c
      /\ ClientID c' = ClientID c /\ ClientSecret c' = ClientSecret c)
  /\ (exists cl, ne c' = Some cl
                 /\ clientBaseURL cl = BaseURL c
                 /\ Timeout (clientHTTP cl) <> 0%Z
                 /\ (forall n, clientPageSize cl = Some n
                               -> n = PageSize c /\ (0 < n)%Z)
                 /\ clientUserAgent cl = neUserAgent c')
  /\ ecxUserAgent c' = neUserAgent c'
  /\ (Token c <> "" -> FabricAuthToken c' <> "").
Proof.
  subst load. unfold Load.
  destruct (String.eqb_spec (BaseURL c) "") as [Hb|Hb]; [discriminate|].
  destruct ((Token c =? "") && ((ClientID c =? "") || (ClientSecret c =? ""))
            && (AuthToken c =? "")); [discriminate|].
  assert (forall c1,
             BaseURL c1 = BaseURL c -> Token c1 = Token c ->
             AuthToken c1 = AuthToken c -> ClientID c1 = ClientID c ->
             ClientSecret c1 = ClientSecret c -> PageSize c1 = PageSize c ->
             RequestTimeout c1 = RequestTimeout c ->
             let c2 := if FabricAuthToken c1 =? ""
                       then setFabricAuthToken (Token c1) c1 else c1 in
             BaseURL c2 = BaseURL c /\ Token c2 = Token c
             /\ AuthToken c2 = AuthToken c /\ ClientID c2 = ClientID c
             /\ ClientSecret c2 = ClientSecret c /\ PageSize c2 = PageSize c
             /\ requestTimeout c2 <> 0%Z
             /\ (Token c <> "" -> FabricAuthToken c2 <> "")) as Hc2.
  { intros c1 E1 E2 E3 E4 E5 E6 E7 c2. subst c2.
    destruct (String.eqb_spec (FabricAuthToken c1) "") as [Hf|Hf];
      cbn; repeat split; try assumption; try apply requestTimeout_nonzero;
      intros Ht; congruence. }
  set (finish := fun (source : TokenSource) (c1 : Config) =>
         let c2 := if FabricAuthToken c1 =? ""
                   then setFabricAuthToken (Token c1) c1 else c1 in
         setClients
           (fullUserAgent Getenv TrimSpace SDKVersionString ProviderVersion c2
              "equinix/ecx-go")
           (fullUserAgent Getenv TrimSpace SDKVersionString ProviderVersion c2
              "equinix/ecx-go")
           (mkRestClient (BaseURL c2)
              (mkHTTPClient source (requestTimeout c2))
              (if (PageSize c2 >? 0)%Z then Some (PageSize c2) else None)
              (fullUserAgent Getenv TrimSpace SDKVersionString ProviderVersion c2
                 "equinix/ecx-go"))
           c2).
  assert (forall src c1,
             BaseURL c1 = BaseURL c -> Token c1 = Token c ->
             AuthToken c1 = AuthToken c -> ClientID c1 = ClientID c ->
             ClientSecret c1 = ClientSecret c -> PageSize c1 = PageSize c ->
             RequestTimeout c1 = RequestTimeout c ->
             let c' := finish src c1 in
             BaseURL c <> ""
             /\ (BaseURL c' = BaseURL c /\ Token c' = Token c
                 /\ AuthToken c' = AuthToken c
                 /\ ClientID c' = ClientID c /\ ClientSecret c' = ClientSecret c)
             /\ (exists cl, ne c' = Some cl
                            /\ clientBaseURL cl = BaseURL c
                            /\ Timeout (clientHTTP cl) <> 0%Z
                            /\ (forall n, clientPageSize cl = Some n
                                          -> n = PageSize c /\ (0 < n)%Z)
                            /\ clientUserAgent cl = neUserAgent c')
             /\ ecxUserAgent c' = neUserAgent c'
             /\ (Token c <> "" -> FabricAuthToken c' <> "")) as Hfin.
  { intros src c1 E1 E2 E3 E4 E5 E6 E7 c'. subst c' finish. cbv beta zeta.
    destruct (Hc2 c1 E1 E2 E3 E4 E5 E6 E7)
      as (F1 & F2 & F3 & F4 & F5 & F6 & F7 & F8).
    set (c2 := if FabricAuthToken c1 =? ""
               then setFabricAuthToken (Token c1) c1 else c1) in *.
    cbn [setClients BaseURL Token AuthToken ClientID ClientSecret ne
         ecxUserAgent neUserAgent FabricAuthToken].
    split; [exact Hb|]. split; [tauto|].
    split; [|split; [reflexivity | exact F8]].
    eexists. split; [reflexivity|].
    cbn [clientBaseURL clientHTTP Timeout clientPageSize clientUserAgent].
    split; [exact F1|]. split; [exact F7|]. split; [|reflexivity].
    intros n Hn.
    destruct (Z.gtb_spec (PageSize c2) 0) as [Hp|Hp]; [|discriminate Hn].
    injection Hn as <-. split; [exact F6 | lia]. }
  destruct (negb (Token c =? "")).
  { intros _. now apply (Hfin (StaticTokenSource (Token c)) c). }
  destruct (negb (ClientID c =? "") && negb (ClientSecret c =? "")).
  - destruct (requestToken _ _ _) as [tke [err|]]; [discriminate|].
    destruct tke as [tok|]; intros _.
    + now apply (Hfin _ (setFabricAuthToken tok c)).
    + now apply (Hfin _ c).
  - intros _. now apply (Hfin _ c).
Qed.

End WithTokenEndpoint.

(** X22. A configured token takes precedence: with a base URL and a
    token, [Load] succeeds without requesting a token (its outcome is the
    same for every token endpoint), the client uses the static token, and
    the Fabric token is the configured token unless one was already set. *)
Theorem load_static_token_precedence
    (requestToken1 requestToken2 :
       string -> string -> string -> option string * option error)
    (c : Config) :
  BaseURL c <> "" -> Token c <> "" ->
  let load := Load Getenv TrimSpace SDKVersionString ProviderVersion in
  load requestToken1 c = load requestToken2 c
  /\ fst (load requestToken1 c) = None
  /\ (exists cl, ne (snd (load requestToken1 c)) = Some cl
                 /\ Source (clientHTTP cl) = StaticTokenSource (Token c))
  /\ FabricAuthToken (snd (load requestToken1 c))
     = (if FabricAuthToken c =? "" then Token c else FabricAuthToken c).
Proof.
  intros Hb Ht load. subst load. unfold Load.
  apply String.eqb_neq in Hb, Ht. rewrite Hb, Ht. cbn [andb negb].
  repeat split.
  - eexists. split; reflexivity.
  - cbn. destruct (FabricAuthToken c =? ""); reflexivity.
Qed.

End LoadFacts.

(* ================================================================= *)
(** ** Further instances on concrete inputs *)

Lemma compare_swap_negates_witness :
  let s := scalar TypeString in
  In (SType s) [TypeString; TypeBool; TypeInt; TypeFloat]
  /\ exists c, compareValues s (VString "abc") (VString "abd") = Ok c
               /\ compareValues s (VString "abd") (VString "abc") = Ok (- c)
               /\ (c = -1 \/ c = 0 \/ c = 1).
Proof.
  assert (In TypeString [TypeString; TypeBool; TypeInt; TypeFloat]) as H
      by (simpl; tauto).
  split; [exact H|].
  exact (compare_swap_negates (scalar TypeString) (VString "abc")
           (VString "abd") H eq_refl eq_refl).
Defined.

Lemma compare_self_zero_witness :
  In (SType (scalar TypeFloat)) [TypeString; TypeBool; TypeInt; TypeFloat]
  /\ compareValues (scalar TypeFloat) (VFloat F64.NaN) (VFloat F64.NaN) = Ok 0.
Proof.
  assert (In TypeFloat [TypeString; TypeBool; TypeInt; TypeFloat]) as H
      by (simpl; tauto).
  split; [exact H|].
  exact (compare_self_zero (scalar TypeFloat) (VFloat F64.NaN) H eq_refl).
Defined.

Lemma compare_zero_iff_equal_witness :
  In (SType (scalar TypeInt)) [TypeString; TypeBool; TypeInt]
  /\ (compareValues (scalar TypeInt) (VInt 4) (VInt 7) = Ok 0
      <-> VInt 4 = VInt 7).
Proof.
  assert (In TypeInt [TypeString; TypeBool; TypeInt]) as H by (simpl; tauto).
  split; [exact H|].
  exact (compare_zero_iff_equal (scalar TypeInt) (VInt 4) (VInt 7) H
           eq_refl eq_refl).
Defined.

Lemma compare_transitive_witness :
  let s := scalar TypeString in
  inOrder s (VString "a") (VString "ab")
  /\ inOrder s (VString "ab") (VString "b")
  /\ inOrder s (VString "a") (VString "b").
Proof.
  assert (In TypeString [TypeString; TypeBool; TypeInt]) as H by (simpl; tauto).
  assert (inOrder (scalar TypeString) (VString "a") (VString "ab")) as H1
      by (exists (-1); split; [reflexivity | lia]).
  assert (inOrder (scalar TypeString) (VString "ab") (VString "b")) as H2
      by (exists (-1); split; [reflexivity | lia]).
  split; [exact H1 | split; [exact H2|]].
  exact (compare_transitive (scalar TypeString) (VString "a") (VString "ab")
           (VString "b") H H1 H2).
Defined.

Lemma ill_typed_value_panics_witness :
  hasShape TypeInt (VString "1") = false
  /\ valueMatches strings.EqualFoldASCII (scalar TypeInt) (VString "1") (VInt 1)
       "less_than" = Panicked InterfaceConversion.
Proof.
  split; [reflexivity|].
  apply (ill_typed_value_panics strings.EqualFoldASCII TypeInt ElemNil);
    [simpl; tauto | reflexivity].
Defined.

Lemma compare_ill_typed_panics_witness :
  hasType TypeInt (VString "5") = false
  /\ compareValues (scalar TypeInt) (VInt 3) (VString "5")
     = Panicked InterfaceConversion.
Proof.
  split; [reflexivity|].
  apply (compare_ill_typed_panics (scalar TypeInt));
    [simpl; tauto | right; reflexivity].
Defined.

Lemma collection_panics_with_element_witness :
  let es := scalar TypeInt in
  valueMatches strings.EqualFoldASCII es (VInt 2) (VInt 2) "" = Ok true
  /\ valueMatches strings.EqualFoldASCII es (VString "x") (VInt 2) ""
     = Panicked InterfaceConversion
  /\ valueMatches strings.EqualFoldASCII (mkSchema TypeList (ElemSchema es))
       (VList [VInt 2; VString "x"]) (VInt 2) ""
     = Panicked InterfaceConversion.
Proof.
  split; [reflexivity | split; [reflexivity|]].
  apply (collection_panics_with_element strings.EqualFoldASCII TypeList
           (scalar TypeInt) [VInt 2; VString "x"] (VString "x") (VInt 2) ""
           InterfaceConversion);
    [left; reflexivity | simpl; tauto | reflexivity].
Defined.

Lemma collection_elem_used_per_element_witness :
  valueMatches strings.EqualFoldASCII (mkSchema TypeSet ElemResource)
    (VSet []) (VInt 1) "" = Ok false
  /\ (isElemSchema ElemResource = false -> [VInt 1] <> [] ->
      valueMatches strings.EqualFoldASCII (mkSchema TypeSet ElemResource)
        (VSet [VInt 1]) (VInt 1) "" = Panicked InterfaceConversion).
Proof.
  apply (collection_elem_used_per_element strings.EqualFoldASCII TypeSet
           ElemResource [VInt 1] (VInt 1) "").
  right. reflexivity.
Defined.

Lemma typed_payloads_match_returns_witness :
  let s := mkSchema TypeList (ElemSchema (scalar TypeString)) in
  let v := VList [VString "alpha"; VString "beta"] in
  let f := VRegexp (mkRegexp (fun x => strings.HasPrefix x "b")) in
  wellTyped s v = true /\ filterTyped s f "re" = true
  /\ returns (valueMatches strings.EqualFoldASCII s v f "re").
Proof.
  split; [reflexivity | split; [reflexivity|]].
  apply typed_payloads_match_returns; reflexivity.
Defined.

Lemma float_modes_dual_witness :
  let s := scalar TypeFloat in
  F64.neqb F64.nano F64.zero = true /\ F64.neqb F64.one F64.zero = true
  /\ valueMatches strings.EqualFoldASCII s (VFloat F64.nano) (VFloat F64.one)
       "less_than"
     = valueMatches strings.EqualFoldASCII s (VFloat F64.one) (VFloat F64.nano)
         "greater_than"
  /\ valueMatches strings.EqualFoldASCII s (VFloat F64.zero) (VFloat F64.nano) ""
     = valueMatches strings.EqualFoldASCII s (VFloat F64.nano) (VFloat F64.zero) "".
Proof.
  split; [reflexivity | split; [reflexivity|]].
  destruct (float_modes_dual strings.EqualFoldASCII ElemNil F64.nano F64.one)
    as [Hrel _].
  destruct (float_modes_dual strings.EqualFoldASCII ElemNil F64.zero F64.nano)
    as [_ Hdef].
  split; [exact (proj1 (Hrel eq_refl eq_refl)) | exact Hdef].
Defined.

Lemma redirects_error_not_retried_witness :
  "10"%string <> ""%string /\ equinix.allDigits "10" = true
  /\ equinix.MetalRetryPolicy (fun u => u) None (@None unit)
       (Some (equinix.URLError "Get" "https://api.equinix.com"
                (equinix.errorString "stopped after 10 redirects")))
     = (false, None).
Proof.
  assert ("10"%string <> ""%string) as H by discriminate.
  split; [exact H | split; [reflexivity|]].
  exact (redirects_error_not_retried (fun u => u) unit None "Get"
           "https://api.equinix.com" "10" H eq_refl).
Defined.

Lemma load_error_keeps_config_witness :
  let c := equinix.mkConfig "https://api.equinix.com" "" "id" "secret" 0 0 0 0 ""
             None "" "" "" "1.5.0" "" in
  let denied := equinix.errorString "error when acquiring token" in
  let load := equinix.Load (fun _ => ""%string) (fun u => u) "2.10.1" "1.11.0"
                (fun _ _ _ => (None, Some denied)) in
  fst (load c) = Some denied /\ snd (load c) = c.
Proof.
  split; [reflexivity|].
  apply (load_error_keeps_config (fun _ => ""%string) (fun u => u) "2.10.1"
           "1.11.0" _ _ (equinix.errorString "error when acquiring token")).
  reflexivity.
Defined.

Lemma load_static_token_precedence_witness :
  let c := equinix.mkConfig "https://api.equinix.com" "" "id" "secret" 0 0 0 50
             "static" None "" "" "" "1.5.0" "" in
  let load := equinix.Load (fun _ => ""%string) (fun u => u) "2.10.1" "1.11.0" in
  let r1 := fun _ _ _ : string =>
              (@None string, Some (equinix.errorString "denied")) in
  let r2 := fun _ _ _ : string => (Some "fetched"%string, @None equinix.error) in
  equinix.BaseURL c <> ""%string /\ equinix.Token c <> ""%string
  /\ load r1 c = load r2 c
  /\ fst (load r1 c) = None
  /\ (exists cl, equinix.ne (snd (load r1 c)) = Some cl
                 /\ equinix.Source (equinix.clientHTTP cl)
                    = equinix.StaticTokenSource (equinix.Token c))
  /\ equinix.FabricAuthToken (snd (load r1 c))
     = (if (equinix.FabricAuthToken c =? "")%string then equinix.Token c
        else equinix.FabricAuthToken c).
Proof.
  assert ("https://api.equinix.com"%string <> ""%string) as Hb by discriminate.
  assert ("static"%string <> ""%string) as Ht by discriminate.
  split; [exact Hb | split; [exact Ht|]].
  exact (load_static_token_precedence (fun _ => ""%string) (fun u => u)
           "2.10.1" "1.11.0" _ _
           (equinix.mkConfig "https://api.equinix.com" "" "id" "secret" 0 0 0 50
              "static" None "" "" "" "1.5.0" "") Hb Ht).
Defined.

Lemma load_success_postcondition_witness :
  let c := equinix.mkConfig "https://api.equinix.com" "metal" "" "" 0 0 0 0 ""
             None "" "" "" "1.5.0" "" in
  let load := equinix.Load (fun _ => ""%string) (fun u => u) "2.10.1" "1.11.0"
                (fun _ _ _ => (None, None)) in
  fst (load c) = None
  /\ exists cl, equinix.ne (snd (load c)) = Some cl
                /\ equinix.Timeout (equinix.clientHTTP cl) <> 0.
Proof.
  split; [reflexivity|].
  destruct (load_success_postcondition (fun _ => ""%string) (fun u => u)
              "2.10.1" "1.11.0" (fun _ _ _ => (None, None))
              (equinix.mkConfig "https://api.equinix.com" "metal" "" "" 0 0 0 0
                 "" None "" "" "" "1.5.0" "") eq_refl)
    as (_ & _ & (cl & Hne & _ & Ht & _) & _).
  exists cl. split; [exact Hne | exact Ht].
Defined.
